(** * DistroBaker: a shallow embedding of [lib/distrobaker.py]

    The development follows the Python module function by function.
    Strings are Rocq strings (one character per code point below 256),
    dictionaries are [gmap]s, Python sets are [gset]s, and the remote
    systems (git, the lookaside caches, Koji, MBS) are reached through an
    explicit world whose every request is recorded in a trace. *)

From Stdlib Require Import Ascii String ZArith Lia DecimalString.
From stdpp Require Import base option list strings gmap.

(** ** Python primitives *)

Module Py.

(** The outcome of evaluating a Python expression: a value or an
    exception nobody caught. *)
Inductive res (A : Type) : Type :=
| Val (a : A)
| Exc.
Arguments Val {A} a.
Arguments Exc {A}.

Definition rbind {A B} (r : res A) (f : A -> res B) : res B :=
  match r with Val a => f a | Exc => Exc end.

(** [s.split(sep, maxsplit)] for a one-character separator. *)
Fixpoint split_upto (sep : ascii) (n : nat) (s : string) : list string :=
  match s with
  | EmptyString => [""]
  | String a s' =>
      match n with
      | O => [s]
      | S n' =>
          if Ascii.eqb a sep then "" :: split_upto sep n' s'
          else match split_upto sep n s' with
               | h :: t => String a h :: t
               | [] => [String a ""]
               end
      end
  end.

(** [s.split(sep)]: no bound on the number of splits. *)
Definition split (sep : ascii) (s : string) : list string :=
  split_upto sep (String.length s) s.

(** [c in s] for a one-character [c]. *)
Fixpoint contains (c : ascii) (s : string) : bool :=
  match s with
  | EmptyString => false
  | String a s' => Ascii.eqb a c || contains c s'
  end.

(** [s.startswith(p)], returning what follows the prefix. *)
Fixpoint strip_prefix (p s : string) : option string :=
  match p, s with
  | EmptyString, _ => Some s
  | String a p', String b s' =>
      if Ascii.eqb a b then strip_prefix p' s' else None
  | String _ _, EmptyString => None
  end.

(** [p in s] for strings. *)
Fixpoint substring (p s : string) : bool :=
  match strip_prefix p s with
  | Some _ => true
  | None => match s with
            | EmptyString => false
            | String _ s' => substring p s'
            end
  end.

(** [xs[-1]] and [xs[-2]]. *)
Definition last1 {A} (xs : list A) : option A := last xs.
Definition last2 {A} (xs : list A) : option A :=
  match reverse xs with _ :: y :: _ => Some y | _ => None end.

(** Truthiness of a string: [if s] holds for a non-empty string. *)
Definition truthy (s : string) : bool :=
  match s with EmptyString => false | _ => true end.

(** [c.isspace()] for code points below 256. *)
Definition isspace (c : ascii) : bool :=
  let n := nat_of_ascii c in
  ((9 <=? n) && (n <=? 13)) || ((28 <=? n) && (n <=? 32))
  || (n =? 133) || (n =? 160).

(** [s.rstrip()]: drop the trailing run of white space. *)
Fixpoint rstrip (s : string) : string :=
  match s with
  | EmptyString => EmptyString
  | String a s' =>
      match rstrip s' with
      | EmptyString => if isspace a then EmptyString else String a EmptyString
      | r => String a r
      end
  end.

(** The [%] operator with a dictionary on its right, for templates
    written with [%(key)s] and [%%]; any other conversion is outside
    this model and is reported as an exception, as are a missing key
    ([KeyError]) and a truncated specifier ([ValueError]).  Keys may nest
    parentheses, which the interpreter counts. *)
Inductive fmt_mode :=
| FText
| FPercent
| FKey (depth : nat) (key : string)
| FConv (key : string).

Fixpoint format_from (mode : fmt_mode) (d : gmap string string)
    (tmpl : string) : res string :=
  match tmpl with
  | EmptyString => match mode with FText => Val "" | _ => Exc end
  | String a t =>
      match mode with
      | FText =>
          if Ascii.eqb a "%" then format_from FPercent d t
          else rbind (format_from FText d t) (fun r => Val (String a r))
      | FPercent =>
          if Ascii.eqb a "%"
          then rbind (format_from FText d t) (fun r => Val (String "%" r))
          else if Ascii.eqb a "(" then format_from (FKey 1 "") d t
          else Exc
      | FKey depth key =>
          if Ascii.eqb a ")" then
            match depth with
            | 1 => format_from (FConv key) d t
            | _ => format_from (FKey (pred depth) (key +:+ ")")) d t
            end
          else if Ascii.eqb a "("
          then format_from (FKey (S depth) (key +:+ "(")) d t
          else format_from (FKey depth (key +:+ String a "")) d t
      | FConv key =>
          if Ascii.eqb a "s" then
            match d !! key with
            | Some v => rbind (format_from FText d t) (fun r => Val (v +:+ r))
            | None => Exc
            end
          else Exc
      end
  end.

Definition format (tmpl : string) (d : gmap string string) : res string :=
  format_from FText d tmpl.

End Py.

Abbreviation Val := Py.Val.
Abbreviation Exc := Py.Exc.

(** ** SCM URLs and module coordinates *)

Record scm := Scm {
  scm_link : string;
  scm_ref : option string;
  scm_ns : option string;
  scm_comp : option string
}.

(** [split_scmurl]: the text before the first [#] is the link, the text
    after it the ref; the last two [/]-separated pieces of the link are
    the namespace and the component. *)
Definition split_scmurl (scmurl : string) : scm :=
  let scm := Py.split_upto "#" 1 scmurl in
  let scm0 := default "" (scm !! 0%nat) in
  let nscomp := Py.split "/" scm0 in
  {| scm_link := scm0;
     scm_ref := if decide (2 <= length scm) then scm !! 1%nat else None;
     scm_ns := if decide (2 <= length nscomp) then Py.last2 nscomp else None;
     scm_comp := Py.last1 nscomp |}.

Record module_coord := ModuleCoord { mod_name : string; mod_stream : string }.

(** [split_module]: [name:stream], the stream defaulting to [master]. *)
Definition split_module (comp : string) : module_coord :=
  let ms := Py.split ":" comp in
  {| mod_name := default "" (ms !! 0%nat);
     mod_stream := match ms !! 1%nat with
                   | Some s => if Py.truthy s then s else "master"
                   | None => "master"
                   end |}.

(** The textual form of an SCM reference, ["{}#{}".format(link, ref)],
    or the bare link when there is no ref. *)
Definition join_scmurl (s : scm) : string :=
  match scm_ref s with
  | Some r => scm_link s +:+ "#" +:+ r
  | None => scm_link s
  end.

(** ** Regular expressions

    A backtracking matcher for the fragment of the [regex] module's
    syntax that the program uses: literals, character classes, sequence,
    alternation, bounded and greedy repetition, atomic groups [(?>r)],
    named groups [(?P<g>r)], [^] and [$].  Alternatives are tried left
    to right, [+] takes as much as it can and gives back one repetition
    at a time, and nothing inside an atomic group is retried once the
    group has matched. *)

Module Regex.

Inductive re :=
| Lit (s : string)
| Class (p : ascii -> bool)
| Seq (r1 r2 : re)
| Alt (r1 r2 : re)
| Rep (n : nat) (r : re)
| Plus (r : re)
| Atomic (r : re)
| Group (g : string) (r : re)
| Bol
| Eol.

(** The matcher's position: how many characters were consumed, what is
    left of the subject, and the text captured by each named group. *)
Record mstate := MState {
  pos : nat;
  rest : string;
  caps : gmap string string
}.

Definition cont := mstate -> option mstate.

Fixpoint stake (n : nat) (s : string) : string :=
  match n, s with
  | S n', String a s' => String a (stake n' s')
  | _, _ => EmptyString
  end.

Fixpoint sdrop (n : nat) (s : string) : string :=
  match n, s with
  | S n', String _ s' => sdrop n' s'
  | _, _ => s
  end.

Definition advance (n : nat) (st : mstate) : mstate :=
  {| pos := pos st + n; rest := sdrop n (rest st); caps := caps st |}.

(** The text a group consumed between [st] and [st'] is recorded under
    the group's name; two groups of one name share the entry. *)
Definition capture (g : string) (st st' : mstate) : mstate :=
  {| pos := pos st'; rest := rest st';
     caps := <[g := stake (pos st' - pos st) (rest st)]> (caps st') |}.

Definition newline : ascii := "010".

(** [$] without [MULTILINE]: the end of the subject, or just before a
    newline that ends it. *)
Definition at_end (s : string) : bool :=
  match s with
  | EmptyString => true
  | String a EmptyString => Ascii.eqb a newline
  | _ => false
  end.

Definition orelse {A} (x y : option A) : option A :=
  match x with Some _ => x | None => y end.

Fixpoint rep_m (n : nat) (mr : mstate -> cont -> option mstate)
    (st : mstate) (k : cont) : option mstate :=
  match n with
  | O => k st
  | S n' => mr st (fun st' => rep_m n' mr st' k)
  end.

(** Greedy [r+]: after one [r], first try another round, then the
    continuation.  Every round has to consume, so the length of the
    subject bounds the number of rounds. *)
Fixpoint plus_m (fuel : nat) (mr : mstate -> cont -> option mstate)
    (st : mstate) (k : cont) : option mstate :=
  match fuel with
  | O => None
  | S fuel' =>
      mr st (fun st' =>
        if decide (pos st < pos st')
        then orelse (plus_m fuel' mr st' k) (k st')
        else k st')
  end.

Fixpoint m (r : re) (st : mstate) (k : cont) : option mstate :=
  match r with
  | Lit l =>
      match Py.strip_prefix l (rest st) with
      | Some _ => k (advance (String.length l) st)
      | None => None
      end
  | Class p =>
      match rest st with
      | String a _ => if p a then k (advance 1 st) else None
      | EmptyString => None
      end
  | Seq r1 r2 => m r1 st (fun st' => m r2 st' k)
  | Alt r1 r2 => orelse (m r1 st k) (m r2 st k)
  | Rep n r1 => rep_m n (m r1) st k
  | Plus r1 => plus_m (S (String.length (rest st))) (m r1) st k
  | Atomic r1 =>
      match m r1 st Some with
      | Some st' => k st'
      | None => None
      end
  | Group g r1 => m r1 st (fun st' => k (capture g st st'))
  | Bol => if decide (pos st = 0) then k st else None
  | Eol => if at_end (rest st) then k st else None
  end.

(** [r.match(s)]: match at the start of [s]; the result is the
    [groupdict()] of the match. *)
Definition match_ (r : re) (s : string) : option (gmap string string) :=
  caps <$> m r {| pos := 0; rest := s; caps := ∅ |} Some.

(** [[a-f0-9]] and [.]. *)
Definition hexlow (c : ascii) : bool :=
  let n := nat_of_ascii c in
  ((48 <=? n) && (n <=? 57)) || ((97 <=? n) && (n <=? 102)).

Definition dot (c : ascii) : bool := negb (Ascii.eqb c newline).

End Regex.

(** ** The sources file *)

Import Regex.

(** [sre]:
    [^(?>(?P<hash>[a-f0-9]{32})  (?P<file>.+)|SHA512 \((?P<file>.+)\) = (?<hash>[a-f0-9]{128}))$] *)
Definition sre : re :=
  Seq Bol
   (Seq (Atomic
          (Alt
            (Seq (Group "hash" (Rep 32 (Class hexlow)))
              (Seq (Lit "  ") (Group "file" (Plus (Class dot)))))
            (Seq (Lit "SHA512 (")
              (Seq (Group "file" (Plus (Class dot)))
                (Seq (Lit ") = ") (Group "hash" (Rep 128 (Class hexlow))))))))
        Eol).

(** The state of the [sources] file of a working tree: absent, not
    readable as text, or a list of lines as iteration over the open file
    yields them. *)
Inductive sources_file :=
| NoFile
| Unreadable
| Lines (ls : list string).

(** An entry is [(filename, hash, hashtype)]. *)
Definition source_entry : Type := string * string * string.

(** The loop of [parse_sources] over the lines of the file. *)
Fixpoint parse_lines (ls : list string) (src : gset source_entry)
    : option (gset source_entry) :=
  match ls with
  | [] => Some src
  | line :: ls' =>
      match match_ sre (Py.rstrip line) with
      | None => None
      | Some g =>
          match g !! "file", g !! "hash" with
          | Some f, Some h =>
              parse_lines ls'
                ({[ (f, h, if decide (String.length h = 128)
                           then "sha512" else "md5") ]} ∪ src)
          | _, _ => None
          end
      end
  end.

(** [parse_sources]: the set of entries, or [None] on error. *)
Definition parse_sources (sources : sources_file)
    : option (gset source_entry) :=
  match sources with
  | NoFile => Some ∅
  | Unreadable => None
  | Lines ls => parse_lines ls ∅
  end.

(** Vocabulary for stating what the matcher does. *)

(** Every character of [s] is in the class [p]. *)
Fixpoint sall (p : ascii -> bool) (s : string) : bool :=
  match s with
  | EmptyString => true
  | String a s' => p a && sall p s'
  end.

(** The length of the longest prefix of [s] made of characters of [p]. *)
Fixpoint run (p : ascii -> bool) (s : string) : nat :=
  match s with
  | EmptyString => 0
  | String a s' => if p a then S (run p s') else 0
  end.

(** The first success of [f] on [n], [n-1], ..., [1]. *)
Fixpoint first_down {A} (f : nat -> option A) (n : nat) : option A :=
  match n with
  | O => None
  | S n' => orelse (f n) (first_down f n')
  end.

(** The two line formats of a [sources] file, in the words of the
    specification: ["<md5>  <file>"] with a digest of 32 hexadecimal
    characters, and ["SHA512 (<file>) = <hex128>"] with one of 128.  The
    hash type follows the length of the digest.  A file name is a
    non-empty piece of one line. *)
Definition hex_digest (n : nat) (h : string) : Prop :=
  String.length h = n /\ sall hexlow h = true.

Definition file_name (f : string) : Prop :=
  f <> "" /\ sall dot f = true.

Inductive line_format : string -> source_entry -> Prop :=
| fmt_md5 h f :
    hex_digest 32 h -> file_name f ->
    line_format (h +:+ "  " +:+ f) (f, h, "md5")
| fmt_sha512 h f :
    hex_digest 128 h -> file_name f ->
    line_format ("SHA512 (" +:+ f +:+ ") = " +:+ h) (f, h, "sha512").

(** A line is accepted when, read up to its trailing white space, it has
    one of the two formats. *)
Definition accepted (line : string) : Prop :=
  exists e, line_format (Py.rstrip line) e.

(** ** YAML documents

    What [yaml.safe_load] returns for [distrobaker.yaml]: scalars,
    sequences and mappings.  A mapping keeps the order of the document;
    its keys are strings and occur once.  Floats and timestamps are left
    out. *)

#[local] Set Warnings "-register-all".

Inductive yaml : Type :=
| YNull
| YBool (b : bool)
| YInt (z : Z)
| YStr (s : string)
| YSeq (l : list yaml)
| YMap (m : list (string * yaml)).

Module Yaml.

(** [d[k]] on the pairs of a mapping. *)
Fixpoint assoc (k : string) (m : list (string * yaml)) : option yaml :=
  match m with
  | [] => None
  | (k', v) :: m' => if String.eqb k k' then Some v else assoc k m'
  end.

Definition is_str (k : string) (y : yaml) : bool :=
  match y with YStr s => String.eqb s k | _ => false end.

(** [k in y] for a string [k]: key lookup in a mapping, membership in a
    sequence, substring test in a string, [TypeError] otherwise. *)
Definition has (k : string) (y : yaml) : Py.res bool :=
  match y with
  | YMap m => Val (bool_decide (is_Some (assoc k m)))
  | YSeq l => Val (existsb (is_str k) l)
  | YStr s => Val (Py.substring k s)
  | _ => Exc
  end.

(** [y[k]] for a string [k]: [KeyError] on a missing key, [TypeError] on
    anything that is not a mapping. *)
Definition get (k : string) (y : yaml) : Py.res yaml :=
  match y with
  | YMap m => match assoc k m with Some v => Val v | None => Exc end
  | _ => Exc
  end.

(** [y.keys()]. *)
Definition keys (y : yaml) : Py.res (list string) :=
  match y with
  | YMap m => Val (m.*1)
  | _ => Exc
  end.

(** [isinstance(y, dict)]. *)
Definition is_dict (y : yaml) : bool :=
  match y with YMap _ => true | _ => false end.

(** [bool(y)]. *)
Definition truth (y : yaml) : bool :=
  match y with
  | YNull => false
  | YBool b => b
  | YInt z => negb (Z.eqb z 0)
  | YStr s => Py.truthy s
  | YSeq l => match l with [] => false | _ => true end
  | YMap m => match m with [] => false | _ => true end
  end.

(** Iterating over [y], as [set.update(y)] does: the items of a
    sequence, the characters of a string, the keys of a mapping. *)
Fixpoint chars (s : string) : list yaml :=
  match s with
  | EmptyString => []
  | String a s' => YStr (String a "") :: chars s'
  end.

Definition iter (y : yaml) : Py.res (list yaml) :=
  match y with
  | YSeq l => Val l
  | YStr s => Val (chars s)
  | YMap m => Val (YStr <$> m.*1)
  | _ => Exc
  end.

(** *** [str] and [repr] *)

Definition hex_digit (n : N) : ascii :=
  default "f"%char (String.get (N.to_nat n) "0123456789abcdef").

(** One character inside a quoted string; [q] is the quote in use. *)
Definition escape (q a : ascii) : string :=
  let n := N_of_ascii a in
  if Ascii.eqb a "\"%char then "\\"
  else if Ascii.eqb a q then String "\"%char (String q "")
  else if N.eqb n 10 then "\n"
  else if N.eqb n 13 then "\r"
  else if N.eqb n 9 then "\t"
  else if (N.ltb n 32 || N.eqb n 127)%bool then
    "\x" +:+ String (hex_digit (n / 16)) (String (hex_digit (n mod 16)) "")
  else String a "".

Fixpoint escape_all (q : ascii) (s : string) : string :=
  match s with
  | EmptyString => ""
  | String a s' => escape q a +:+ escape_all q s'
  end.

(** [repr(s)]: single quotes, unless the string has a single quote and
    no double quote. *)
Definition dquote : ascii := ascii_of_nat 34.

Definition repr_str (s : string) : string :=
  let q : ascii :=
    if (Py.contains "'" s && negb (Py.contains dquote s))%bool then dquote else "'"%char in
  String q (escape_all q s) +:+ String q "".

Definition str_int (z : Z) : string :=
  DecimalString.NilZero.string_of_int (Z.to_int z).

Fixpoint join (sep : string) (l : list string) : string :=
  match l with
  | [] => ""
  | [x] => x
  | x :: l' => x +:+ sep +:+ join sep l'
  end.

Fixpoint repr (y : yaml) : string :=
  match y with
  | YNull => "None"
  | YBool b => if b then "True" else "False"
  | YInt z => str_int z
  | YStr s => repr_str s
  | YSeq l => "[" +:+ join ", " (map repr l) +:+ "]"
  | YMap m =>
      "{" +:+ join ", " (map (fun kv => repr_str kv.1 +:+ ": " +:+ repr kv.2) m) +:+ "}"
  end.

(** [str(y)]: a string is itself, everything else prints as [repr]. *)
Definition str (y : yaml) : string :=
  match y with
  | YStr s => s
  | _ => repr y
  end.

(** [y % d] with a dictionary on the right: only a string has the
    operator. *)
Definition format (y : yaml) (d : gmap string string) : Py.res string :=
  match y with
  | YStr s => Py.format s d
  | _ => Exc
  end.

End Yaml.
(** ** The configuration

    The dictionary [load_config] builds, block by block.  Where the
    loader always stores a key the block is a record field; where it may
    leave a key out ([trigger], the [defaults] templates) or copies the
    document as it is ([mbs], the module overrides) the block stays a
    dictionary. *)

Record cache_cfg := CacheCfg {
  cache_url : string;
  cache_cgi : string;
  cache_path : string
}.

Record endpoint := Endpoint {
  ep_scm : string;
  ep_cache : cache_cfg;
  ep_profile : string;
  ep_mbs : gmap string yaml
}.

Record build_cfg := BuildCfg {
  build_prefix : string;
  build_target : string;
  build_platform : string;
  build_scratch : bool
}.

Record git_cfg := GitCfg {
  git_author : string;
  git_email : string;
  git_message : string
}.

(** [control.exclude] holds two sets.  A component name is a string, so
    only the strings of an exclusion list can ever be found in them; the
    other scalars of a list are not kept. *)
Record control_cfg := ControlCfg {
  control_build : bool;
  control_merge : bool;
  control_strict : bool;
  exclude_rpms : gset string;
  exclude_modules : gset string
}.

(** [defaults.modules] has the two templates of the namespace and, under
    [rpms], the two templates of module sub-components. *)
Record defaults_cfg := DefaultsCfg {
  defaults_cache : gmap string string;
  defaults_rpms : gmap string string;
  defaults_modules : gmap string string;
  defaults_modules_rpms : gmap string yaml
}.

Record main_cfg := MainCfg {
  main_source : endpoint;
  main_destination : endpoint;
  main_trigger : gmap string string;
  main_build : build_cfg;
  main_git : git_cfg;
  main_control : control_cfg;
  main_defaults : defaults_cfg
}.

(** One configured component; [comp_rpms] is the [rpms] dictionary of a
    module, its sub-component overrides. *)
Record sub_cfg := SubCfg {
  sub_source : yaml;
  sub_destination : yaml
}.

Record comp_cfg := CompCfg {
  comp_source : string;
  comp_destination : string;
  comp_cache_source : string;
  comp_cache_destination : string;
  comp_rpms : gmap string sub_cfg
}.

Record comps_cfg := CompsCfg {
  comps_rpms : gmap string comp_cfg;
  comps_modules : gmap string comp_cfg
}.

(** The global [c]: empty at start, with [main] and [comps] once a
    configuration is loaded. *)
Record config := Config {
  cfg_main : option main_cfg;
  cfg_comps : option comps_cfg
}.

Definition no_config : config := Config None None.

(** [d[k]] on a dictionary, [KeyError] when the key is missing. *)
Definition item {A} (d : gmap string A) (k : string) : Py.res A :=
  match d !! k with Some v => Val v | None => Exc end.

(** [c["main"]["control"]["exclude"][ns]] *)
Definition exclude (m : main_cfg) (ns : string) : Py.res (gset string) :=
  if String.eqb ns "rpms" then Val (exclude_rpms (main_control m))
  else if String.eqb ns "modules" then Val (exclude_modules (main_control m))
  else Exc.

(** [c["comps"][ns]] *)
Definition comps (cs : comps_cfg) (ns : string) : Py.res (gmap string comp_cfg) :=
  if String.eqb ns "rpms" then Val (comps_rpms cs)
  else if String.eqb ns "modules" then Val (comps_modules cs)
  else Exc.

(** [c["main"]["defaults"][ns]], as far as its [source] and
    [destination] entries go. *)
Definition defaults (m : main_cfg) (ns : string) : Py.res (gmap string string) :=
  if String.eqb ns "cache" then Val (defaults_cache (main_defaults m))
  else if String.eqb ns "rpms" then Val (defaults_rpms (main_defaults m))
  else if String.eqb ns "modules" then Val (defaults_modules (main_defaults m))
  else Exc.

(** [c["main"]["defaults"]["modules"][ns]]: a dictionary only for
    [rpms]; the other entries of [defaults.modules] are strings, and a
    string cannot be subscripted by a string. *)
Definition defaults_modules_sub (m : main_cfg) (ns : string)
    : Py.res (gmap string yaml) :=
  if String.eqb ns "rpms" then Val (defaults_modules_rpms (main_defaults m))
  else Exc.

(** [c["main"][which]] for the two endpoints. *)
Definition endpoint_of (m : main_cfg) (which : string) : Py.res endpoint :=
  if String.eqb which "source" then Val (main_source m)
  else if String.eqb which "destination" then Val (main_destination m)
  else Exc.
(** ** The world

    Everything the module reaches outside itself: the file system, git,
    the lookaside caches, Koji, MBS and libmodulemd.  A call is a
    [request]; the world answers with a [reply] of the type the call
    returns and moves on.  A reply [None] (or [false] where nothing is
    returned) stands for the call raising an exception. *)

(** What [getBuild] tells about a build: the [source] entry and, for a
    module, [extra.typeinfo.module] with its three entries, each of
    which may be null. *)
Record module_info := ModuleInfo {
  mi_name : option string;
  mi_stream : option string;
  mi_modulemd_str : option string
}.

Record build := Build {
  build_source : option string;
  build_module : option module_info
}.

(** An entry of [listTagged]. *)
Record tagged := Tagged {
  tagged_nvr : string;
  tagged_package_name : string
}.

(** A packager modulemd document, as far as the module reads it: the
    components by name, in the order libmodulemd lists the names. *)
Record rpm_component := RpmComponent {
  rc_repository : option string;
  rc_cache : option string;
  rc_ref : option string
}.

Record module_component := ModuleComponent {
  mc_repository : option string;
  mc_ref : option string
}.

Record modulemd := Modulemd {
  rpm_components : list (string * rpm_component);
  module_components : list (string * module_component)
}.

(** A lookaside cache client: [CGILookasideCache("sha512", url, cgi)]
    with its [download_path] and the [hashtype] it is switched to. *)
Record lookaside := Lookaside {
  la_url : string;
  la_cgi : string;
  la_download_path : string;
  la_hashtype : string
}.

(** The body of a module build request. *)
Record mbs_body := MbsBody {
  body_scmurl : string;
  body_branch : string;
  body_buildrequire_overrides : string * list string;
  body_scratch : bool
}.

(** The answer of MBS: [status_code], [ok] and the decoded [json()],
    absent when decoding raises. *)
Record response := Response {
  status_code : Z;
  ok : bool;
  json : option yaml
}.

(** A Koji session is known by a number. *)
Definition session := nat.

Inductive request : Type :=
| TemporaryDirectory (prefix : string)
| NamedTemporaryFile (prefix text : string)
| RandomLetters (n : nat)
| Now
| IsFile (path : string)
| SafeLoad (path : string)
| ReadSources (path : string)
| Import (name : string)
| CloneFrom (link dir : string) (branch : option string)
| OpenRepo (dir : string)
| Git (dir : string) (command : string) (args : list string)
| RemoteFileExists (cache : lookaside) (name filename hash : string)
| Download (cache : lookaside) (name filename hash path hashtype : string)
| Upload (cache : lookaside) (name path hash : string)
| KojiSession (profile : string)
| KojiLogout (bsys : session)
| KojiLogin (bsys : session)
| KojiBuild (bsys : session) (scmurl target : string) (scratch : bool)
| KojiGetBuild (bsys : session) (nvr : string)
| KojiListTagged (bsys : session) (tag : string) (package : option string) (latest : bool)
| PostKerberos (url : string) (body : mbs_body)
| PostOidc (provider client_id client_secret : yaml) (url : string)
    (body : mbs_body) (scopes : yaml)
| ReadPackagerString (text : string).

Definition reply (r : request) : Type :=
  match r with
  | TemporaryDirectory _ => string
  | NamedTemporaryFile _ _ => option string
  | RandomLetters _ => string
  | Now => Z
  | IsFile _ => bool
  | SafeLoad _ => option yaml
  | ReadSources _ => sources_file
  | Import _ => bool
  | CloneFrom _ _ _ => bool
  | OpenRepo _ => bool
  | Git _ _ _ => option string
  | RemoteFileExists _ _ _ _ => option bool
  | Download _ _ _ _ _ _ => bool
  | Upload _ _ _ _ => bool
  | KojiSession _ => option session
  | KojiLogout _ => bool
  | KojiLogin _ => bool
  | KojiBuild _ _ _ _ => option Z
  | KojiGetBuild _ _ => option (option build)
  | KojiListTagged _ _ _ _ => option (list tagged)
  | PostKerberos _ _ => option response
  | PostOidc _ _ _ _ _ _ => option response
  | ReadPackagerString _ => option (option modulemd)
  end.

Class World (W : Type) := respond : forall r : request, W -> reply r * W.

(** ** Program state

    The module globals: the configuration [c], the [retry] count, the
    [dry_run] flag, and the sessions [get_buildsys] keeps as attributes
    of itself, each with its start time in seconds. *)
Record globals := Globals {
  c : config;
  retry : nat;
  dry_run : bool;
  sessions : gmap string (session * Z)
}.

Record state (W : Type) := State {
  world : W;
  trace : list request;
  glob : globals
}.
Arguments State {W} world trace glob.
Arguments world {W} s.
Arguments trace {W} s.
Arguments glob {W} s.

(** ** Control flow

    A statement goes on to the next one with a value, returns from the
    enclosing function, or raises. *)
Inductive flow (R A : Type) : Type :=
| Next (a : A)
| Return (r : R)
| Raise.
Arguments Next {R A} a.
Arguments Return {R A} r.
Arguments Raise {R A}.

Definition M (W R A : Type) : Type := state W -> flow R A * state W.

Section Monad.
Context {W : Type} {host : World W}.

Definition ret {R A} (a : A) : M W R A := fun s => (Next a, s).

Definition bind {R A B} (m : M W R A) (f : A -> M W R B) : M W R B :=
  fun s =>
    match m s with
    | (Next a, s') => f a s'
    | (Return r, s') => (Return r, s')
    | (Raise, s') => (Raise, s')
    end.

(** [return r] *)
Definition return_ {R A} (r : R) : M W R A := fun s => (Return r, s).

(** [raise] *)
Definition raise {R A} : M W R A := fun s => (Raise, s).

(** A function call: the body runs to its [return]. *)
Definition call {R R'} (body : M W R R) : M W R' R :=
  fun s =>
    match body s with
    | (Next r, s') => (Next r, s')
    | (Return r, s') => (Next r, s')
    | (Raise, s') => (Raise, s')
    end.

(** [try: body / except Exception:] giving [None] when the body raised.
    What the body did before raising stays done. *)
Definition try {R A} (body : M W R A) : M W R (option A) :=
  fun s =>
    match body s with
    | (Next a, s') => (Next (Some a), s')
    | (Return r, s') => (Return r, s')
    | (Raise, s') => (Next None, s')
    end.

(** A pure expression that may raise. *)
Definition eval {R A} (r : Py.res A) : M W R A :=
  match r with
  | Py.Val a => ret a
  | Py.Exc => raise
  end.

(** A request to the world, recorded in the trace. *)
Definition perform {R} (r : request) : M W R (reply r) :=
  fun s =>
    let (a, w) := respond r (world s) in
    (Next a, State w (trace s ++ [r]) (glob s)).

(** Requests whose failure is an exception. *)
Definition check {R} (r : M W R bool) : M W R unit :=
  bind r (fun b => if b : bool then ret tt else raise).

Definition force {R A} (r : M W R (option A)) : M W R A :=
  bind r (fun o => match o with Some a => ret a | None => raise end).

(** Reading and writing the globals. *)
Definition globals_ {R} : M W R globals := fun s => (Next (glob s), s).

Definition set_c {R} (n : config) : M W R unit :=
  fun s =>
    let g := glob s in
    (Next tt, State (world s) (trace s) (Globals n (retry g) (dry_run g) (sessions g))).

Definition set_sessions {R} (ss : gmap string (session * Z)) : M W R unit :=
  fun s =>
    let g := glob s in
    (Next tt, State (world s) (trace s) (Globals (c g) (retry g) (dry_run g) ss)).

Definition set_retry {R} (n : nat) : M W R unit :=
  fun s =>
    let g := glob s in
    (Next tt, State (world s) (trace s) (Globals (c g) n (dry_run g) (sessions g))).

Definition set_dry_run {R} (b : bool) : M W R unit :=
  fun s =>
    let g := glob s in
    (Next tt, State (world s) (trace s) (Globals (c g) (retry g) b (sessions g))).

End Monad.

Declare Scope prog_scope.
Delimit Scope prog_scope with prog.
Notation "x <- m ;; k" := (bind m (fun x => k))
  (at level 100, m at next level, right associativity) : prog_scope.
Notation "m ;;; k" := (bind m (fun _ => k))
  (at level 100, right associativity) : prog_scope.
Open Scope prog_scope.

Section Loops.
Context {W : Type} {host : World W}.

(** [for attempt in range(n): try: body / except Exception: continue /
    else: break], with [None] when the loop runs out. *)
Fixpoint attempts {R A} (n : nat) (body : M W R A) : M W R (option A) :=
  match n with
  | O => ret None
  | S n' =>
      r <- try body ;;
      match r with
      | Some a => ret (Some a)
      | None => attempts n' body
      end
  end.

(** [for x in xs: body x] *)
Fixpoint for_each {R A} (xs : list A) (body : A -> M W R unit) : M W R unit :=
  match xs with
  | [] => ret tt
  | x :: xs' => body x ;;; for_each xs' body
  end.

(** A loop that carries a value from one round to the next. *)
Fixpoint fold_each {R A B} (xs : list A) (body : B -> A -> M W R B) (b : B)
    : M W R B :=
  match xs with
  | [] => ret b
  | x :: xs' => b' <- body b x ;; fold_each xs' body b'
  end.

End Loops.
(** ** Loading the configuration *)

(** [os.path.join(a, b)] *)
Definition path_join (a b : string) : string :=
  if Py.strip_prefix "/" b is Some _ then b
  else if (negb (Py.truthy a) || bool_decide (Py.last1 (list_ascii_of_string a) = Some "/"%char))%bool
  then a +:+ b
  else a +:+ "/" +:+ b.

(** [s.update(y)] on a set of which only the strings are kept: every
    element has to be hashable. *)
Fixpoint add_all (s : gset string) (l : list yaml) : Py.res (gset string) :=
  match l with
  | [] => Val s
  | YStr x :: l' => add_all ({[ x ]} ∪ s) l'
  | YSeq _ :: _ | YMap _ :: _ => Exc
  | _ :: l' => add_all s l'
  end.

Definition set_update (s : gset string) (y : yaml) : Py.res (gset string) :=
  Py.rbind (Yaml.iter y) (add_all s).

Section Load.
Context {W : Type} {host : World W}.

(** Statements of [load_config]: they go on, [return None], or raise. *)
Local Abbreviation Load := (M W (option config)).

Definition has (k : string) (y : yaml) : Load bool := eval (Yaml.has k y).
Definition get (k : string) (y : yaml) : Load yaml := eval (Yaml.get k y).

(** [if k in d: ... str(d[k]) / else: return None] *)
Definition str_of (k : string) (d : yaml) : Load string :=
  b <- has k d ;;
  if b : bool then v <- get k d ;; ret (Yaml.str v) else return_ None.

(** [if k in d: ... bool(d[k]) / else: return None] *)
Definition bool_of (k : string) (d : yaml) : Load bool :=
  b <- has k d ;;
  if b : bool then v <- get k d ;; ret (Yaml.truth v) else return_ None.

(** [if k in d: n[k] = str(d[k])], with only an error logged otherwise. *)
Definition str_opt (d : yaml) (n : gmap string string) (k : string)
    : Load (gmap string string) :=
  b <- has k d ;;
  if b : bool then v <- get k d ;; ret (<[k := Yaml.str v]> n) else ret n.

(** The [mbs] block of the destination. *)
Definition load_mbs (mbs : yaml) : Load (gmap string yaml) :=
  if negb (Yaml.is_dict mbs) then return_ None else
  b <- has "auth_method" mbs ;;
  if negb b then return_ None else
  am <- get "auth_method" mbs ;;
  let mbs_auth_method := Yaml.str am in
  mbs_required_configs <-
    (if String.eqb mbs_auth_method "oidc" then
       i <- perform (Import "openidc_client") ;;
       if i : bool then
         ret ["auth_method"; "api_url"; "oidc_id_provider"; "oidc_client_id";
              "oidc_client_secret"; "oidc_scopes"]
       else return_ None
     else if String.eqb mbs_auth_method "kerberos" then
       i <- perform (Import "requests_kerberos") ;;
       if i : bool then ret ["auth_method"; "api_url"] else return_ None
     else return_ None) ;;
  fold_each mbs_required_configs
    (fun n r =>
       b <- has r mbs ;;
       if negb b then return_ None else
       v <- get r mbs ;; ret (<[r := v]> n))
    ∅.

(** One round of [for k in ("source", "destination")]. *)
Definition load_endpoint (cnf : yaml) (k : string) : Load endpoint :=
  b <- has k cnf ;;
  if negb b then return_ None else
  ck <- get k cnf ;;
  scm <- str_of "scm" ck ;;
  b <- has "cache" ck ;;
  if negb b then return_ None else
  cache <- get "cache" ck ;;
  url <- str_of "url" cache ;;
  cgi <- str_of "cgi" cache ;;
  path <- str_of "path" cache ;;
  profile <- str_of "profile" ck ;;
  b <- has "mbs" ck ;;
  mbs <-
    (if b : bool then
       if String.eqb k "destination" then
         m <- get "mbs" ck ;; load_mbs m
       else ret ∅
     else
       if String.eqb k "destination" then return_ None else ret ∅) ;;
  ret (Endpoint scm (CacheCfg url cgi path) profile mbs).

Definition load_trigger (cnf : yaml) : Load (gmap string string) :=
  b <- has "trigger" cnf ;;
  if negb b then return_ None else
  t <- get "trigger" cnf ;;
  fold_each ["rpms"; "modules"] (str_opt t) ∅.

Definition load_build (cnf : yaml) : Load build_cfg :=
  b <- has "build" cnf ;;
  if negb b then return_ None else
  bl <- get "build" cnf ;;
  prefix <- str_of "prefix" bl ;;
  target <- str_of "target" bl ;;
  platform <- str_of "platform" bl ;;
  b <- has "scratch" bl ;;
  scratch <- (if b : bool then v <- get "scratch" bl ;; ret (Yaml.truth v)
              else ret false) ;;
  if negb (Py.contains ":" platform) then return_ None else
  ret (BuildCfg prefix target platform scratch).

Definition load_git (cnf : yaml) : Load git_cfg :=
  b <- has "git" cnf ;;
  if negb b then return_ None else
  g <- get "git" cnf ;;
  author <- str_of "author" g ;;
  email <- str_of "email" g ;;
  message <- str_of "message" g ;;
  ret (GitCfg author email message).

(** One round of [for cns in ("rpms", "modules")] over [control.exclude]. *)
Definition load_exclude (ex : yaml) (cns : string) : Load (gset string) :=
  b <- has cns ex ;;
  if b : bool then v <- get cns ex ;; eval (set_update ∅ v) else ret ∅.

Definition load_control (cnf : yaml) : Load control_cfg :=
  b <- has "control" cnf ;;
  if negb b then return_ None else
  ctl <- get "control" cnf ;;
  build <- bool_of "build" ctl ;;
  merge <- bool_of "merge" ctl ;;
  strict <- bool_of "strict" ctl ;;
  b <- has "exclude" ctl ;;
  if b : bool then
    ex <- get "exclude" ctl ;;
    rpms <- load_exclude ex "rpms" ;;
    modules <- load_exclude ex "modules" ;;
    ret (ControlCfg build merge strict rpms modules)
  else ret (ControlCfg build merge strict ∅ ∅).

(** One round of [for dk in ("cache", "rpms", "modules")]. *)
Definition load_default (df : yaml) (dk : string) : Load (gmap string string) :=
  b <- has dk df ;;
  if negb b then return_ None else
  d <- get dk df ;;
  fold_each ["source"; "destination"] (str_opt d) ∅.

(** The defaults of module sub-components: the document's own value when
    [defaults.modules.rpms] has one, the [defaults.rpms] template
    otherwise. *)
Definition load_default_sub (df : yaml) (rpms : gmap string string)
    (n : gmap string yaml) (dkk : string) : Load (gmap string yaml) :=
  dm <- get "modules" df ;;
  b <- has "rpms" dm ;;
  b <- (if b : bool then r <- get "rpms" dm ;; has dkk r else ret false) ;;
  if b : bool then
    r <- get "rpms" dm ;;
    v <- get dkk r ;;
    ret (<[dkk := v]> n)
  else
    v <- eval (item rpms dkk) ;;
    ret (<[dkk := YStr v]> n).

Definition load_defaults (cnf : yaml) : Load defaults_cfg :=
  b <- has "defaults" cnf ;;
  if negb b then return_ None else
  df <- get "defaults" cnf ;;
  cache <- load_default df "cache" ;;
  rpms <- load_default df "rpms" ;;
  modules <- load_default df "modules" ;;
  sub <- fold_each ["source"; "destination"] (load_default_sub df rpms) ∅ ;;
  ret (DefaultsCfg cache rpms modules sub).

(** The [configuration] block. *)
Definition load_main (y : yaml) : Load main_cfg :=
  b <- has "configuration" y ;;
  if negb b then return_ None else
  cnf <- get "configuration" y ;;
  source <- load_endpoint cnf "source" ;;
  destination <- load_endpoint cnf "destination" ;;
  trigger <- load_trigger cnf ;;
  build <- load_build cnf ;;
  git <- load_git cnf ;;
  control <- load_control cnf ;;
  defaults <- load_defaults cnf ;;
  ret (MainCfg source destination trigger build git control defaults).

(** [if ck in d: v = str(d[ck])], keeping [v] otherwise. *)
Definition override (d : yaml) (ck : string) (v : string) : Load string :=
  b <- has ck d ;;
  if b : bool then x <- get ck d ;; ret (Yaml.str x) else ret v.

(** The overrides of one sub-component [cp] of a module. *)
Definition load_sub (n : main_cfg) (cname sname : string) (r : yaml)
    (acc : gmap string sub_cfg) (cp : string) : Load (gmap string sub_cfg) :=
  let one (ck : string) : Load yaml :=
    t <- eval (item (defaults_modules_rpms (main_defaults n)) ck) ;;
    v <- eval (Yaml.format t
                 {[ "component" := cp; "name" := cname; "ref" := "%(ref)s";
                    "stream" := sname ]}) ;;
    d <- get cp r ;;
    b <- has ck d ;;
    if b : bool then get ck d else ret (YStr v) in
  source <- one "source" ;;
  destination <- one "destination" ;;
  ret (<[cp := SubCfg source destination]> acc).

(** One configured component [p] of the namespace [k]. *)
Definition load_comp (n : main_cfg) (k : string) (cnfk : yaml)
    (acc : gmap string comp_cfg) (p : string) : Load (gmap string comp_cfg) :=
  let ms := split_module p in
  let cname := if String.eqb k "modules" then mod_name ms else p in
  let sname := if String.eqb k "modules" then mod_stream ms else "" in
  let d : gmap string string := {[ "component" := cname; "stream" := sname ]} in
  dk <- eval (defaults n k) ;;
  source <- eval (Py.rbind (item dk "source") (fun t => Py.format t d)) ;;
  destination <- eval (Py.rbind (item dk "destination") (fun t => Py.format t d)) ;;
  cache_source <-
    eval (Py.rbind (item (defaults_cache (main_defaults n)) "source")
            (fun t => Py.format t d)) ;;
  cache_destination <-
    eval (Py.rbind (item (defaults_cache (main_defaults n)) "destination")
            (fun t => Py.format t d)) ;;
  v <- get p cnfk ;;
  let cnfp := match v with YNull => YMap [] | _ => v end in
  source <- override cnfp "source" source ;;
  destination <- override cnfp "destination" destination ;;
  b <- has "cache" cnfp ;;
  cache <-
    (if b : bool then
       cc <- get "cache" cnfp ;;
       s <- override cc "source" cache_source ;;
       t <- override cc "destination" cache_destination ;;
       ret (s, t)
     else ret (cache_source, cache_destination)) ;;
  rpms <-
    (if String.eqb k "modules" then
       b <- has "rpms" cnfp ;;
       if b : bool then
         r <- get "rpms" cnfp ;;
         cps <- eval (Yaml.keys r) ;;
         fold_each cps (load_sub n cname sname r) ∅
       else ret ∅
     else ret ∅) ;;
  ret (<[p := CompCfg source destination cache.1 cache.2 rpms]> acc).

(** One round of [for k in ("rpms", "modules")] over [components]. *)
Definition load_comps (n : main_cfg) (cnf : yaml) (k : string)
    : Load (gmap string comp_cfg) :=
  b <- has k cnf ;;
  if b : bool then
    cnfk <- get k cnf ;;
    ps <- eval (Yaml.keys cnfk) ;;
    fold_each ps (load_comp n k cnfk) ∅
  else ret ∅.

Definition load_components (n : main_cfg) (y : yaml) : Load comps_cfg :=
  b <- has "components" y ;;
  if b : bool then
    cnf <- get "components" y ;;
    rpms <- load_comps n cnf "rpms" ;;
    modules <- load_comps n cnf "modules" ;;
    ret (CompsCfg rpms modules)
  else ret (CompsCfg ∅ ∅).

Definition load_config {R} (crepo : string) : M W R (option config) :=
  call (
    cdir <- perform (TemporaryDirectory "distrobaker-") ;;
    let scm := split_scmurl crepo in
    let ref := default "master" (scm_ref scm) in
    g <- globals_ ;;
    fetched <-
      attempts (retry g)
        (check (perform (CloneFrom (scm_link scm) cdir None)) ;;;
         force (perform (Git cdir "checkout" [ref]))) ;;
    if fetched is None then return_ None else
    f <- perform (IsFile (path_join cdir "distrobaker.yaml")) ;;
    if negb f then return_ None else
    l <- perform (SafeLoad (path_join cdir "distrobaker.yaml")) ;;
    match l with
    | None => return_ None
    | Some y =>
        n <- load_main y ;;
        nc <- load_components n y ;;
        set_c (Config (Some n) (Some nc)) ;;;
        ret (Some (Config (Some n) (Some nc)))
    end).

End Load.
(** ** Git repositories

    A [git.Repo] is known by its working directory.  [repo.git.cmd(args)]
    runs [git cmd args] there; GitPython leaves out the arguments that
    are [None]. *)

(** [str.format] of a value that may be [None]. *)
Definition fmt (o : option string) : string := default "None" o.

(** A positional argument of a git command. *)
Definition arg (o : option string) : list string :=
  match o with Some a => [a] | None => [] end.

(** [if x] for a string that may be [None]. *)
Definition truthy_opt (o : option string) : bool :=
  match o with Some s => Py.truthy s | None => false end.

Definition nl : string := String Regex.newline "".

Section Git.
Context {W : Type} {host : World W}.

Definition git {R} (repo command : string) (args : list string) : M W R string :=
  force (perform (Git repo command args)).

(** [c["main"]] and [c["comps"]], a [KeyError] before a configuration
    is loaded. *)
Definition main_ {R} : M W R main_cfg :=
  g <- globals_ ;;
  match cfg_main (c g) with Some m => ret m | None => raise end.

Definition comps_ {R} : M W R comps_cfg :=
  g <- globals_ ;;
  match cfg_comps (c g) with Some cs => ret cs | None => raise end.

(** [retries], for a count that is a natural number. *)
Definition retries {R} (val : option nat) : M W R nat :=
  call (
    (if val is Some n then set_retry n else ret tt) ;;;
    g <- globals_ ;;
    return_ (retry g)).

Definition pretend {R} (val : option bool) : M W R bool :=
  call (
    (if val is Some b then set_dry_run b else ret tt) ;;;
    g <- globals_ ;;
    return_ (dry_run g)).

Definition get_config {R} : M W R config :=
  call (g <- globals_ ;; return_ (c g)).

Definition clone_destination_repo {R} (ns comp : string) (dscm : scm)
    (dirname : string) : M W R (option string) :=
  call (
    g <- globals_ ;;
    r <- attempts (retry g)
           (check (perform (CloneFrom (scm_link dscm) dirname (scm_ref dscm)))) ;;
    if r is None then return_ None else
    return_ (Some dirname)).

Definition fetch_upstream_repo {R} (ns comp : string) (sscm : scm)
    (repo : string) : M W R (option string) :=
  call (
    git repo "remote" ["add"; "source"; scm_link sscm] ;;;
    g <- globals_ ;;
    r <- attempts (retry g)
           (if truthy_opt (scm_ref sscm) then
              git repo "fetch" (["--tags"; "source"] ++ arg (scm_ref sscm))
            else
              git repo "fetch" ["--tags"; "--all"]) ;;
    if r is None then return_ None else
    return_ (Some repo)).

Definition configure_repo {R} (ns comp repo : string) : M W R (option string) :=
  call (
    r <- try (
           m <- main_ ;;
           git repo "config" ["user.name"; git_author (main_git m)] ;;;
           m <- main_ ;;
           git repo "config" ["user.email"; git_email (main_git m)]) ;;
    if r is None then return_ None else
    return_ (Some repo)).

(** The first loop of [sync_repo_merge]: draw a branch name until
    [rev-parse] does not know it. *)
Fixpoint free_branch {R} (n : nat) (repo : string) : M W R (option string) :=
  match n with
  | O => ret None
  | S n' =>
      bname <- perform (RandomLetters 16) ;;
      r <- try (git repo "rev-parse" ["--quiet"; bname; "--"]) ;;
      if r is None then ret (Some bname) else free_branch n' repo
  end.

(** The second loop: the first of the candidates [rev-parse] knows. *)
Fixpoint known_ref {R} (brefs : list (option string)) (repo : string)
    : M W R (option (option string)) :=
  match brefs with
  | [] => ret None
  | bref :: brefs' =>
      r <- try (git repo "rev-parse" (["--quiet"] ++ arg bref ++ ["--"])) ;;
      if r is None then known_ref brefs' repo else ret (Some bref)
  end.

Definition sync_repo_merge {R} (ns comp repo : string) (bscm sscm dscm : scm)
    : M W R (option string) :=
  call (
    g <- globals_ ;;
    b <- free_branch (retry g) repo ;;
    match b with
    | None => return_ None
    | Some bname =>
        r <- known_ref [Some ("source/" +:+ fmt (scm_ref bscm)); scm_ref bscm] repo ;;
        match r with
        | None => return_ None
        | Some bref =>
            r <- try (
                   m <- main_ ;;
                   let actor :=
                     git_author (main_git m) +:+ " <" +:+ git_email (main_git m) +:+ ">" in
                   git repo "checkout" (arg bref) ;;;
                   git repo "switch" ["-c"; bname] ;;;
                   git repo "merge"
                     (["--allow-unrelated-histories"; "--no-commit"; "-s"; "ours"]
                      ++ arg (scm_ref dscm)) ;;;
                   git repo "commit"
                     ["--author"; actor; "--allow-empty"; "-m";
                      "Temporary working tree merge"] ;;;
                   git repo "checkout" (arg (scm_ref dscm)) ;;;
                   git repo "merge" ["--no-commit"; "--squash"; bname] ;;;
                   m <- main_ ;;
                   let msg :=
                     git_message (main_git m) +:+ nl +:+ "Source: " +:+ scm_link sscm
                     +:+ "#" +:+ fmt (scm_ref bscm) in
                   msgfile <-
                     force (perform (NamedTemporaryFile
                                       ("msg-" +:+ ns +:+ "-" +:+ comp +:+ "-") msg)) ;;
                   git repo "commit" ["--author"; actor; "--allow-empty"; "-F"; msgfile]) ;;
            if r is None then return_ None else
            return_ (Some repo)
        end
    end).

Definition sync_repo_pull {R} (ns comp repo : string) (bscm : scm)
    : M W R (option string) :=
  call (
    r <- try (git repo "pull" (["--ff-only"; "--tags"; "source"] ++ arg (scm_ref bscm))) ;;
    if r is None then return_ None else
    return_ (Some repo)).

Definition repo_push {R} (ns comp repo : string) (dscm : scm)
    : M W R (option string) :=
  call (
    g <- globals_ ;;
    r <- attempts (retry g)
           (g <- globals_ ;;
            if negb (dry_run g) then
              git repo "push" (["--tags"; "--set-upstream"; "origin"] ++ arg (scm_ref dscm))
            else
              git repo "push"
                (["--dry-run"; "--tags"; "--set-upstream"; "origin"]
                 ++ arg (scm_ref dscm))) ;;
    if r is None then return_ None else
    return_ (Some repo)).

End Git.
(** ** Build systems, the lookaside caches and builds *)

(** What [get_build_info] returns. *)
Record binfo := BInfo {
  bi_scmurl : string;
  bi_name : option string;
  bi_stream : option string;
  bi_modulemd : option string
}.

(** A session has timed out when the [timedelta] since its start has
    more than 3550 seconds or at least one day. *)
Definition timed_out (now start : Z) : bool :=
  let age := (now - start)%Z in
  ((3550 <? age mod 86400) || (0 <? age / 86400))%Z.

Section Build.
Context {W : Type} {host : World W}.

Definition get_buildsys {R} (which : string) : M W R (option session) :=
  call (
    g <- globals_ ;;
    if cfg_main (c g) is None then return_ None else
    if negb (String.eqb which "source" || String.eqb which "destination") then
      return_ None
    else
    session_timed_out <-
      (if sessions g !! which is Some (_, start) then
         now <- perform Now ;;
         ret (timed_out now start)
       else ret false) ;;
    (if (session_timed_out || bool_decide (sessions g !! which = None))%bool then
       r <- try (
              m <- main_ ;;
              e <- eval (endpoint_of m which) ;;
              force (perform (KojiSession (ep_profile e)))) ;;
       match r with
       | None => return_ None
       | Some bsys =>
           (if String.eqb which "destination" then
              r <- try (
                     (if session_timed_out : bool then
                        check (perform (KojiLogout bsys))
                      else ret tt) ;;;
                     check (perform (KojiLogin bsys))) ;;
              if r is None then return_ None else ret tt
            else ret tt) ;;;
           now <- perform Now ;;
           g <- globals_ ;;
           set_sessions (<[which := (bsys, now)]> (sessions g))
       end
     else ret tt) ;;;
    g <- globals_ ;;
    match sessions g !! which with
    | Some (bsys, _) => return_ (Some bsys)
    | None => raise
    end).

Definition get_build_info {R} (nvr : string) : M W R (option binfo) :=
  call (
    g <- globals_ ;;
    if cfg_main (c g) is None then return_ None else
    b <- get_buildsys "source" ;;
    match b with
    | None => return_ None
    | Some bsys =>
        r <- try (force (perform (KojiGetBuild bsys nvr))) ;;
        match r with
        | None => return_ None
        | Some None => raise
        | Some (Some bsrc) =>
            match build_source bsrc with
            | None => return_ None
            | Some scmurl =>
                match build_module bsrc with
                | Some minfo =>
                    return_ (Some (BInfo scmurl (mi_name minfo) (mi_stream minfo)
                                     (mi_modulemd_str minfo)))
                | None => return_ (Some (BInfo scmurl None None None))
                end
            end
        end
    end).

(** The loop of [get_build] over the tagged module builds. *)
Definition latest_for {R} (cname sname : string) (latest : option string)
    (b : tagged) : M W R (option string) :=
  i <- get_build_info (tagged_nvr b) ;;
  match i with
  | Some (BInfo _ (Some name) (Some stream) _) =>
      if (String.eqb cname name && String.eqb sname stream)%bool
      then ret (Some (tagged_nvr b))
      else ret latest
  | _ => ret latest
  end.

Definition get_build {R} (comp ns : string) : M W R (option string) :=
  call (
    g <- globals_ ;;
    if cfg_main (c g) is None then return_ None else
    b <- get_buildsys "source" ;;
    match b with
    | None => return_ None
    | Some bsys =>
        if String.eqb ns "rpms" then
          r <- try (
                 m <- main_ ;;
                 tag <- eval (item (main_trigger m) ns) ;;
                 force (perform (KojiListTagged bsys tag (Some comp) true))) ;;
          match r with
          | None => return_ None
          | Some [] => return_ None
          | Some (x :: _) => return_ (Some (tagged_nvr x))
          end
        else if String.eqb ns "modules" then
          let ms := split_module comp in
          let cname := mod_name ms in
          let sname := mod_stream ms in
          r <- try (
                 m <- main_ ;;
                 tag <- eval (item (main_trigger m) ns) ;;
                 force (perform (KojiListTagged bsys tag None false))) ;;
          match r with
          | None => return_ None
          | Some [] => return_ None
          | Some builds =>
              latest <- fold_each builds (latest_for cname sname) None ;;
              if truthy_opt latest then return_ latest else return_ None
          end
        else return_ None
    end).

(** [sources] is the set of entries in the order the loop visits it. *)
Definition sync_cache {R} (comp : string) (sources : list source_entry)
    (ns : string) (scacheurl : option string) : M W R (option nat) :=
  call (
    g <- globals_ ;;
    match cfg_main (c g) with
    | None => return_ None
    | Some m =>
        ex <- eval (exclude m ns) ;;
        if bool_decide (comp ∈ ex) then return_ None else
        let sc := ep_cache (main_source m) in
        let dc := ep_cache (main_destination m) in
        let scache := Lookaside (cache_url sc) (cache_cgi sc) (cache_path sc) "sha512" in
        tempdir <- perform (TemporaryDirectory ("cache-" +:+ ns +:+ "-" +:+ comp +:+ "-")) ;;
        cs <- comps_ ;;
        cn <- eval (comps cs ns) ;;
        names <-
          (match cn !! comp with
           | Some cc => ret (comp_cache_source cc, comp_cache_destination cc)
           | None =>
               scname <- eval (Py.rbind (item (defaults_cache (main_defaults m)) "source")
                                 (fun t => Py.format t {[ "component" := comp ]})) ;;
               dcname <- eval (Py.rbind (item (defaults_cache (main_defaults m)) "source")
                                 (fun t => Py.format t {[ "component" := comp ]})) ;;
               ret (scname, dcname)
           end) ;;
        let scname := names.1 in
        let dcname := names.2 in
        for_each sources
          (fun s =>
             let dcache := Lookaside (cache_url dc) (cache_cgi dc) (cache_path dc) s.2 in
             g <- globals_ ;;
             r <- attempts (retry g)
                    (e <- force (perform (RemoteFileExists dcache
                                            (ns +:+ "/" +:+ dcname) s.1.1 s.1.2)) ;;
                     if negb e then
                       check (perform (Download scache (ns +:+ "/" +:+ scname) s.1.1 s.1.2
                                         (path_join tempdir s.1.1) s.2)) ;;;
                       g <- globals_ ;;
                       if negb (dry_run g) then
                         check (perform (Upload dcache (ns +:+ "/" +:+ dcname)
                                           (path_join tempdir s.1.1) s.1.2))
                       else ret tt
                     else ret tt) ;;
             if r is None then return_ None else ret tt) ;;;
        return_ (Some (length sources))
    end).

(** The result of an MBS request, from its response. *)
Definition build_id {R} (resp : response) : M W (option yaml) R :=
  if Z.eqb (status_code resp) 401 then return_ None else
  if negb (ok resp) then return_ None else
  match json resp with
  | None => raise
  | Some rdata =>
      b <- (match rdata with
            | YSeq (x :: _) => ret x
            | YSeq [] => raise
            | _ => ret rdata
            end) ;;
      buildid <- eval (Yaml.get "id" b) ;;
      return_ (Some buildid)
  end.

Definition build_comp {R} (comp : string) (ref : option string) (ns : string)
    : M W R (option yaml) :=
  call (
    g <- globals_ ;;
    match cfg_main (c g) with
    | None => return_ None
    | Some m =>
        ex <- eval (exclude m ns) ;;
        if bool_decide (comp ∈ ex) then return_ None else
        if negb (control_build (main_control m)) then return_ None else
        bsys <- (if negb (dry_run g) then get_buildsys "destination" else ret None) ;;
        cs <- comps_ ;;
        cn <- eval (comps cs ns) ;;
        let buildcomp :=
          match cn !! comp with
          | Some cc => fmt (scm_comp (split_scmurl (comp_destination cc)))
          | None => comp
          end in
        if String.eqb ns "rpms" then
          let buildscmurl :=
            build_prefix (main_build m) +:+ "/" +:+ ns +:+ "/" +:+ buildcomp
            +:+ "#" +:+ fmt ref in
          r <- try (
                 if negb (dry_run g) then
                   match bsys with
                   | Some b =>
                       t <- force (perform (KojiBuild b buildscmurl
                                              (build_target (main_build m))
                                              (build_scratch (main_build m)))) ;;
                       ret (YInt t)
                   | None => raise
                   end
                 else ret (YInt 0)) ;;
          match r with
          | Some task => return_ (Some task)
          | None => return_ None
          end
        else if String.eqb ns "modules" then
          let ms := split_module buildcomp in
          let buildscmurl :=
            build_prefix (main_build m) +:+ "/" +:+ ns +:+ "/" +:+ mod_name ms
            +:+ "#" +:+ fmt ref in
          let ps := split_module (build_platform (main_build m)) in
          let body :=
            MbsBody buildscmurl (mod_stream ms) (mod_name ps, [mod_stream ps])
              (build_scratch (main_build m)) in
          let mbs := ep_mbs (main_destination m) in
          api_url <- eval (item mbs "api_url") ;;
          let request_url := Yaml.str api_url +:+ "/" +:+ "module-builds" +:+ "/" in
          auth_method <- eval (item mbs "auth_method") ;;
          if negb (dry_run g) then
            if Yaml.is_str "kerberos" auth_method then
              r <- try (
                     check (perform (Import "requests_kerberos")) ;;;
                     force (perform (PostKerberos request_url body))) ;;
              match r with
              | None => return_ None
              | Some resp => build_id resp
              end
            else if Yaml.is_str "oidc" auth_method then
              r <- try (
                     check (perform (Import "openidc_client")) ;;;
                     provider <- eval (item mbs "oidc_id_provider") ;;
                     client_id <- eval (item mbs "oidc_client_id") ;;
                     client_secret <- eval (item mbs "oidc_client_secret") ;;
                     scopes <- eval (item mbs "oidc_scopes") ;;
                     force (perform (PostOidc provider client_id client_secret
                                       request_url body scopes))) ;;
              match r with
              | None => return_ None
              | Some resp => build_id resp
              end
            else return_ None
          else return_ (Some (YInt 0))
        else return_ None
    end).

(** The dictionary [latest] of [process_components]: for every build
    tagged with the module trigger, in the order Koji lists them, the
    NVR under the build's own [name:stream]. *)
Definition latest_step {R} (latest : gmap string string) (x : tagged)
    : M W R (gmap string string) :=
  i <- get_build_info (tagged_nvr x) ;;
  match i with
  | Some (BInfo _ (Some name) (Some stream) _) =>
      ret (<[name +:+ ":" +:+ stream := tagged_nvr x]> latest)
  | _ => ret latest
  end.

Definition latest {R} : M W R (gmap string string) :=
  b <- get_buildsys "source" ;;
  match b with
  | None => raise
  | Some bsys =>
      m <- main_ ;;
      tag <- eval (item (main_trigger m) "modules") ;;
      builds <- force (perform (KojiListTagged bsys tag None false)) ;;
      fold_each builds latest_step ∅
  end.

End Build.
(** ** Synchronizing repositories *)

(** [y += s] for a string [s]: concatenation on a string; a list is
    extended by the characters. *)
Definition iadd_str (y : yaml) (s : string) : Py.res yaml :=
  match y with
  | YStr t => Val (YStr (t +:+ s))
  | YSeq l => Val (YSeq (l ++ Yaml.chars s))
  | _ => Exc
  end.

Definition with_ref (s : scm) (r : string) : scm :=
  Scm (scm_link s) (Some r) (scm_ns s) (scm_comp s).

(** [scm["ref"] if scm["ref"] else "master"] *)
Definition ref_or_master (s : scm) : string :=
  match scm_ref s with
  | Some r => if Py.truthy r then r else "master"
  | None => "master"
  end.

(** The build a repository is synchronized to: its SCM URL, the
    modulemd of a module build, and the NVR. *)
Record coordinate := Coordinate {
  bscmurl : string;
  bmmd : option string;
  bnvr : option string
}.

Section Sync.
Context {W : Type} {host : World W}.

(** [parse_sources] on the [sources] file of a working directory. *)
Definition read_sources {R} (repo : string) : M W R (option (gset source_entry)) :=
  f <- perform (ReadSources (path_join repo "sources")) ;;
  ret (parse_sources f).

(** [if "#" not in t: t += "#%(ref)s"] *)
Definition add_ref {R} (t : yaml) : M W R yaml :=
  b <- eval (Yaml.has "#" t) ;;
  if negb b then eval (iadd_str t "#%(ref)s") else ret t.

(** The source and destination of a module sub-component: the override
    of the containing module when there is one, the defaults of module
    sub-components otherwise, with the ref of the build. *)
Definition sub_urls {R} (m : main_cfg) (comp ns cmodule cname ref : string)
    : M W R (string * string) :=
  cs <- comps_ ;;
  over <-
    (match comps_modules cs !! cmodule with
     | Some cc =>
         sub <- eval (if String.eqb ns "rpms" then Val (comp_rpms cc) else Exc) ;;
         ret (sub !! comp)
     | None => ret None
     end) ;;
  t <-
    (match over with
     | Some sc => ret (sub_source sc, sub_destination sc)
     | None =>
         d <- eval (defaults_modules_sub m ns) ;;
         csrc <- eval (item d "source") ;;
         cdst <- eval (item d "destination") ;;
         ret (csrc, cdst)
     end) ;;
  csrc <- add_ref t.1 ;;
  cdst <- add_ref t.2 ;;
  let cms := split_module cmodule in
  let d : gmap string string :=
    {[ "component" := cname; "name" := mod_name cms; "ref" := ref;
       "stream" := mod_stream cms ]} in
  csrc <- eval (Yaml.format csrc d) ;;
  cdst <- eval (Yaml.format cdst d) ;;
  ret (csrc, cdst).

(** The source and destination of a component of its own. *)
Definition comp_urls {R} (m : main_cfg) (comp ns cname sname : string)
    : M W R (string * string) :=
  cs <- comps_ ;;
  cn <- eval (comps cs ns) ;;
  match cn !! comp with
  | Some cc => ret (comp_source cc, comp_destination cc)
  | None =>
      let d : gmap string string := {[ "component" := cname; "stream" := sname ]} in
      dk <- eval (defaults m ns) ;;
      csrc <- eval (Py.rbind (item dk "source") (fun t => Py.format t d)) ;;
      dk <- eval (defaults m ns) ;;
      cdst <- eval (Py.rbind (item dk "destination") (fun t => Py.format t d)) ;;
      ret (csrc, cdst)
  end.

(** [sync_repo], with the module expander it calls for a module as a
    parameter. *)
Definition sync_repo_with
    (expand : string -> option string -> option string -> M W (option string) bool)
    {R} (comp ns : string) (nvr gitdir cmodule scmurl bcache : option string)
    : M W R (option string) :=
  call (
    g <- globals_ ;;
    match cfg_main (c g) with
    | None => return_ None
    | Some m =>
        ex <- eval (exclude m ns) ;;
        if bool_decide (comp ∈ ex) then return_ None else
        b <-
          (if truthy_opt scmurl then ret (Coordinate (fmt scmurl) None nvr)
           else
             nvr <- (if truthy_opt nvr then ret nvr else get_build comp ns) ;;
             match nvr with
             | None => return_ None
             | Some v =>
                 i <- get_build_info v ;;
                 match i with
                 | None => return_ None
                 | Some binfo =>
                     ret (Coordinate (bi_scmurl binfo) (bi_modulemd binfo) (Some v))
                 end
             end) ;;
        let bscm := with_ref (split_scmurl (bscmurl b))
                      (ref_or_master (split_scmurl (bscmurl b))) in
        let nvr :=
          if (truthy_opt cmodule && bool_decide (bnvr b = None))%bool
          then Some (comp +:+ ":" +:+ fmt (scm_ref bscm))
          else bnvr b in
        let ms := split_module comp in
        let cname := if String.eqb ns "modules" then mod_name ms else comp in
        let sname := if String.eqb ns "modules" then mod_stream ms else "" in
        urls <-
          (if truthy_opt cmodule then
             if String.eqb ns "modules" then return_ None else
             sub_urls m comp ns (fmt cmodule) cname (fmt (scm_ref bscm))
           else comp_urls m comp ns cname sname) ;;
        let sscm :=
          split_scmurl (ep_scm (main_source m) +:+ "/" +:+ ns +:+ "/" +:+ urls.1) in
        let dscm0 :=
          split_scmurl (ep_scm (main_destination m) +:+ "/" +:+ ns +:+ "/" +:+ urls.2) in
        let dscm := with_ref dscm0 (ref_or_master dscm0) in
        dir <-
          (if truthy_opt gitdir then ret (fmt gitdir, false)
           else
             tempdir <- perform (TemporaryDirectory
                                   ("repo-" +:+ ns +:+ "-" +:+ comp +:+ "-")) ;;
             ret (tempdir, true)) ;;
        let pushrepo := dir.2 in
        r <- clone_destination_repo ns comp dscm dir.1 ;;
        match r with
        | None => return_ None
        | Some repo =>
            r <- fetch_upstream_repo ns comp sscm repo ;;
            if r is None then return_ None else
            r <- configure_repo ns comp repo ;;
            if r is None then return_ None else
            d <- read_sources repo ;;
            match d with
            | None => return_ None
            | Some dsrc =>
                r <- (if control_merge (main_control m)
                      then sync_repo_merge ns comp repo bscm sscm dscm
                      else sync_repo_pull ns comp repo bscm) ;;
                if r is None then return_ None else
                s <- read_sources repo ;;
                match s with
                | None => return_ None
                | Some ssrc =>
                    let srcdiff := elements (ssrc ∖ dsrc) in
                    (if srcdiff is [] then ret tt
                     else
                       r <- sync_cache comp srcdiff ns bcache ;;
                       if r is None then return_ None else ret tt) ;;;
                    (if String.eqb ns "modules" then
                       b <- expand comp nvr (bmmd b) ;;
                       if negb b then return_ None else ret tt
                     else ret tt) ;;;
                    if pushrepo : bool then
                      r <- repo_push ns comp repo dscm ;;
                      if r is None then return_ None else
                      head <- git repo "rev-parse" ["HEAD"] ;;
                      return_ (Some (scm_link dscm +:+ "#" +:+ head))
                    else
                      return_ (Some (scm_link dscm +:+ "#" +:+ fmt (scm_ref dscm)))
                end
            end
        end
    end).

(** The calls [sync_module_components] makes are all for the [rpms]
    namespace, where [sync_repo] expands nothing. *)
Definition sync_rpm {R} := @sync_repo_with (fun _ _ _ => raise) R.

(** The modulemd text of a module build, asked of the build system. *)
Definition build_modulemd (nvr : string) : M W bool (option string) :=
  b <- get_buildsys "source" ;;
  match b with
  | None => return_ false
  | Some bsys =>
      r <- try (force (perform (KojiGetBuild bsys nvr))) ;;
      match r with
      | Some (Some (Build _ (Some minfo))) => ret (mi_modulemd_str minfo)
      | _ => return_ false
      end
  end.

(** One round of the loop over the RPM components; [done] has the
    name, the directory and the destination of the ones before. *)
Definition sync_module_rpm (comp : string) (done : list (string * string * string))
    (mc : string * rpm_component) : M W bool (list (string * string * string)) :=
  let compinfo := mc.2 in
  gitdir <- perform (TemporaryDirectory
                       ("mcrepo-" +:+ comp +:+ "-" +:+ "rpms" +:+ "-" +:+ mc.1 +:+ "-")) ;;
  let cscmurl :=
    match rc_ref compinfo with
    | Some cref => Some (fmt (rc_repository compinfo) +:+ "#" +:+ cref)
    | None => rc_repository compinfo
    end in
  r <- sync_rpm mc.1 "rpms" None (Some gitdir) (Some comp) cscmurl (rc_cache compinfo) ;;
  match r with
  | None => return_ false
  | Some scmurl => ret (done ++ [(mc.1, gitdir, scmurl)])
  end.

(** One round of the loop over the module components. *)
Definition sync_module_module (comp : string) (mc : string * module_component)
    : M W bool unit :=
  perform (TemporaryDirectory
             ("mcrepo-" +:+ comp +:+ "-" +:+ "modules" +:+ "-" +:+ mc.1 +:+ "-")) ;;;
  return_ true.

(** One round of the loop that pushes. *)
Definition push_module_rpm (comp : string) (d : string * string * string)
    : M W bool unit :=
  check (perform (OpenRepo d.1.2)) ;;;
  r <- repo_push "rpms" d.1.1 d.1.2 (split_scmurl d.2) ;;
  if r is None then return_ false else ret tt.

(** The three loops of [sync_module_components] over a module
    document: the RPM components, the module components, the pushes. *)
Definition sync_components (comp : string) (mmd : modulemd) : M W bool unit :=
  gitdirs <- fold_each (rpm_components mmd) (sync_module_rpm comp) [] ;;
  for_each (module_components mmd) (sync_module_module comp) ;;;
  for_each gitdirs (push_module_rpm comp).

Definition sync_module_components {R} (comp : string) (nvr modulemd : option string)
    : M W R bool :=
  call (
    g <- globals_ ;;
    if cfg_main (c g) is None then return_ false else
    match nvr with
    | None => return_ false
    | Some nvr =>
        modulemd <-
          (match modulemd with
           | Some t => ret (Some t)
           | None => build_modulemd nvr
           end) ;;
        text <- (match modulemd with Some t => ret t | None => raise end) ;;
        r <- force (perform (ReadPackagerString text)) ;;
        match r with
        | None => return_ false
        | Some mmd =>
            sync_components comp mmd ;;;
            return_ true
        end
    end).

Definition sync_repo {R} :=
  @sync_repo_with (fun comp nvr modulemd => sync_module_components comp nvr modulemd) R.

End Sync.
(** ** Messages and component sets *)

(** [cre]: [^(?P<namespace>rpms|modules)/(?P<component>[A-Za-z0-9:._+-]+)$] *)
Definition compchar (a : ascii) : bool :=
  let n := nat_of_ascii a in
  ((65 <=? n) && (n <=? 90)) || ((97 <=? n) && (n <=? 122))
  || ((48 <=? n) && (n <=? 57))
  || Ascii.eqb a ":" || Ascii.eqb a "." || Ascii.eqb a "_"
  || Ascii.eqb a "+" || Ascii.eqb a "-".

Definition cre : Regex.re :=
  Regex.Seq Regex.Bol
    (Regex.Seq (Regex.Group "namespace" (Regex.Alt (Regex.Lit "rpms") (Regex.Lit "modules")))
       (Regex.Seq (Regex.Lit "/")
          (Regex.Seq (Regex.Group "component" (Regex.Plus (Regex.Class compchar)))
             Regex.Eol))).

(** [(\.git)?\??$] *)
Definition git_suffix : Regex.re :=
  Regex.Seq (Regex.Alt (Regex.Lit ".git") (Regex.Lit ""))
    (Regex.Seq (Regex.Alt (Regex.Lit "?") (Regex.Lit "")) Regex.Eol).

(** The leftmost match of [r] in [s], from the position [p] on: where it
    starts and where it ends. *)
Fixpoint search_from (fuel : nat) (r : Regex.re) (s : string) (p : nat)
    : option (nat * nat) :=
  match Regex.m r (Regex.MState p (Regex.sdrop p s) ∅) Some with
  | Some st => Some (p, Regex.pos st)
  | None =>
      match fuel with
      | O => None
      | S fuel' => search_from fuel' r s (S p)
      end
  end.

(** [regex.sub(r, "", s)] for an [r] that ends in [$]: the leftmost
    match is cut out; what follows it is at most a final newline, where
    [r] matches nothing but the empty string again. *)
Definition sub_end (r : Regex.re) (s : string) : string :=
  match search_from (String.length s) r s 0 with
  | Some (p, e) => Regex.stake p s +:+ Regex.sdrop e s
  | None => s
  end.

(** [s.endswith(p)] *)
Definition ends_with (p s : string) : bool :=
  (String.length p <=? String.length s)
  && String.eqb (Regex.sdrop (String.length s - String.length p) s) p.






(** A message: its topic and its body, a dictionary of strings. *)
Record message := Message {
  topic : string;
  body : gmap string string
}.

Section Process.
Context {W : Type} {host : World W}.

(** The namespace and component a tagging event stands for; for a
    module tag the name and stream come from the build. *)
Definition event_component (comp nvr tag : string) : M W unit (string * string) :=
  m <- main_ ;;
  trpms <- eval (item (main_trigger m) "rpms") ;;
  if String.eqb tag trpms then ret ("rpms", comp) else
  m <- main_ ;;
  tmodules <- eval (item (main_trigger m) "modules") ;;
  if String.eqb tag tmodules then
    binfo <- get_build_info nvr ;;
    match binfo with
    | Some (BInfo scmurl (Some name) (Some stream) _) =>
        let bcomp := name +:+ ":" +:+ stream in
        let comp := if negb (String.eqb comp bcomp) then bcomp else comp in
        scm_comp <-
          (match scm_comp (split_scmurl scmurl) with
           | Some x => ret (sub_end git_suffix x)
           | None => raise
           end) ;;
        if negb (String.eqb name scm_comp) then return_ tt else
        ret ("modules", comp)
    | _ => return_ tt
    end
  else return_ tt.

Definition process_message {R} (msg : message) : M W R unit :=
  call (
    g <- globals_ ;;
    if cfg_main (c g) is None then return_ tt else
    if ends_with "buildsys.tag" (topic msg) then
      r <- try (
             comp <- eval (item (body msg) "name") ;;
             name <- eval (item (body msg) "name") ;;
             version <- eval (item (body msg) "version") ;;
             release <- eval (item (body msg) "release") ;;
             tag <- eval (item (body msg) "tag") ;;
             ret (comp, name +:+ "-" +:+ version +:+ "-" +:+ release, tag)) ;;
      match r with
      | None => return_ tt
      | Some (comp, nvr, tag) =>
          nc <- event_component comp nvr tag ;;
          let ns := nc.1 in
          let comp := nc.2 in
          cs <- comps_ ;;
          cn <- eval (comps cs ns) ;;
          m <- main_ ;;
          if (bool_decide (is_Some (cn !! comp)) || negb (control_strict (main_control m)))%bool
          then
            m <- main_ ;;
            ex <- eval (exclude m ns) ;;
            if bool_decide (comp ∈ ex) then return_ tt else
            scmurl <- sync_repo comp ns (Some nvr) None None None None ;;
            match scmurl with
            | Some u =>
                m <- main_ ;;
                if control_build (main_control m) then
                  build_comp comp (scm_ref (split_scmurl u)) ns ;;;
                  return_ tt
                else return_ tt
            | None => return_ tt
            end
          else return_ tt
      end
    else return_ tt).

(** One round of the loop of [process_components]. *)
Definition process_record (latest : gmap string string) (rec : string)
    : M W unit unit :=
  match Regex.match_ cre rec with
  | None => ret tt
  | Some d =>
      component <- eval (item d "component") ;;
      namespace <- eval (item d "namespace") ;;
      m <- main_ ;;
      ex <- eval (exclude m namespace) ;;
      if bool_decide (component ∈ ex) then ret tt else
      m <- main_ ;;
      skip <-
        (if control_strict (main_control m) then
           cs <- comps_ ;;
           cn <- eval (comps cs namespace) ;;
           ret (negb (bool_decide (is_Some (cn !! component))))
         else ret false) ;;
      if skip : bool then ret tt else
      scmurl <- sync_repo component namespace (latest !! component) None None None None ;;
      match scmurl with
      | Some u =>
          build_comp component (scm_ref (split_scmurl u)) namespace ;;;
          ret tt
      | None => ret tt
      end
  end.


End Process.
(** ** Reasoning about runs

    A statement is [safe] for an invariant [J] of the globals, a set [Q]
    of requests and a set [V] of values when, started with [J], it
    leaves [J] in place, adds only requests of [Q] to the trace, and
    returns from the enclosing function only with a value of [V]. *)

Section Safe.
Context {W : Type} {host : World W}.
Variable J : globals -> Prop.
Variable Q : request -> bool.

Definition ext (s s' : state W) : Prop :=
  J (glob s') /\ exists t, trace s' = trace s ++ t /\ forallb Q t = true.

Definition safe {R A} (V : R -> Prop) (m : M W R A) : Prop :=
  forall s, J (glob s) ->
    ext s (m s).2 /\ forall r, (m s).1 = Return r -> V r.

End Safe.

(** The outcome of running a statement from [s]: [Qn] holds of the value
    and state it goes on with, [Qr] of what it returns, [Qe] of the state
    it raises in. *)
Definition wp {W R A} (m : M W R A) (Qn : A -> state W -> Prop)
    (Qr : R -> state W -> Prop) (Qe : state W -> Prop) (s : state W) : Prop :=
  match (m s).1 with
  | Next a => Qn a (m s).2
  | Return r => Qr r (m s).2
  | Raise => Qe (m s).2
  end.

(** Any value. *)
Definition any {R} : R -> Prop := fun _ => True.

(** ** Dry runs

    In a dry run nothing is to reach the destination: no upload to its
    lookaside cache, no build, and no push that is not itself a dry
    run. *)
Definition dry (g : globals) : Prop := dry_run g = true.

Definition harmless (r : request) : bool :=
  match r with
  | Upload _ _ _ _ => false
  | KojiBuild _ _ _ _ => false
  | PostKerberos _ _ => false
  | PostOidc _ _ _ _ _ _ => false
  | Git _ command args =>
      negb (String.eqb command "push")
      || match args with a :: _ => String.eqb a "--dry-run" | [] => false end
  | _ => true
  end.

(** A push, dry or not. *)
Definition pushes (r : request) : bool :=
  match r with
  | Git _ command _ => String.eqb command "push"
  | _ => false
  end.

(** What neither reaches the destination nor pushes. *)
Definition quiet (r : request) : bool := harmless r && negb (pushes r).

(** No invariant, and no push. *)
Definition always (g : globals) : Prop := True.

Definition no_push (r : request) : bool := negb (pushes r).


(** ** What a loaded configuration is known to have

    The entries the rest of the module subscripts without a check: the
    MBS address and authentication method of the destination, with the
    four OIDC entries when the method is [oidc]; a platform with a
    stream; the two templates of module sub-components. *)
Definition mbs_validated (mbs : gmap string yaml) : Prop :=
  is_Some (mbs !! "api_url") /\
  exists am, mbs !! "auth_method" = Some am /\
    (Yaml.str am = "kerberos" \/
     Yaml.str am = "oidc" /\
     is_Some (mbs !! "oidc_id_provider") /\ is_Some (mbs !! "oidc_client_id") /\
     is_Some (mbs !! "oidc_client_secret") /\ is_Some (mbs !! "oidc_scopes")).

Definition validated (n : main_cfg) : Prop :=
  mbs_validated (ep_mbs (main_destination n)) /\
  ep_mbs (main_source n) = ∅ /\
  Py.contains ":" (build_platform (main_build n)) = true /\
  is_Some (defaults_modules_rpms (main_defaults n) !! "source") /\
  is_Some (defaults_modules_rpms (main_defaults n) !! "destination").



(** ** Events that are not for us

    A message is passed over when its topic is not a tagging event, when
    its tag is neither of the two trigger tags, or when it is an RPM
    event for a component that the configuration does not list while
    the strict mode is on. *)
Definition passed_over (m : main_cfg) (cs : comps_cfg) (msg : message) : Prop :=
  ends_with "buildsys.tag" (topic msg) = false \/
  exists name version release tag trpms tmodules,
    body msg !! "name" = Some name /\ body msg !! "version" = Some version /\
    body msg !! "release" = Some release /\ body msg !! "tag" = Some tag /\
    main_trigger m !! "rpms" = Some trpms /\
    main_trigger m !! "modules" = Some tmodules /\
    (tag <> trpms /\ tag <> tmodules \/
     tag = trpms /\ comps_rpms cs !! name = None /\
     control_strict (main_control m) = true).

(** ** Records that are skipped

    A record of the component set is skipped when it is not of the form
    [cre] asks for, when its component is excluded in its namespace, or
    when the configuration does not list it while the strict mode is
    on. *)
Definition skipped (m : main_cfg) (cs : comps_cfg) (rec : string) : Prop :=
  Regex.match_ cre rec = None \/
  exists ns comp ex cn,
    rec = ns +:+ "/" +:+ comp /\ (ns = "rpms" \/ ns = "modules") /\
    comp <> "" /\ sall compchar comp = true /\
    exclude m ns = Val ex /\ comps cs ns = Val cn /\
    (comp ∈ ex \/ control_strict (main_control m) = true /\ cn !! comp = None).
(** ** Data for the examples *)

Definition md5_a : string := "0123456789abcdef0123456789abcdef".
Definition sha_a : string :=
  "0123456789abcdef0123456789abcdef0123456789abcdef0123456789abcdef0123456789abcdef0123456789abcdef0123456789abcdef0123456789abcdef".


(** A world in which every call fails, or answers with nothing. *)
Definition silence (r : request) : reply r :=
  match r as r0 return reply r0 with
  | TemporaryDirectory _ => "/tmp/d"
  | NamedTemporaryFile _ _ => None
  | RandomLetters _ => "a"
  | Now => 0%Z
  | IsFile _ => false
  | SafeLoad _ => None
  | ReadSources _ => NoFile
  | Import _ => false
  | CloneFrom _ _ _ => false
  | OpenRepo _ => false
  | Git _ _ _ => None
  | RemoteFileExists _ _ _ _ => None
  | Download _ _ _ _ _ _ => false
  | Upload _ _ _ _ => false
  | KojiSession _ => None
  | KojiLogout _ => false
  | KojiLogin _ => false
  | KojiBuild _ _ _ _ => None
  | KojiGetBuild _ _ => None
  | KojiListTagged _ _ _ _ => None
  | PostKerberos _ _ => None
  | PostOidc _ _ _ _ _ _ => None
  | ReadPackagerString _ => None
  end.

#[export] Instance silent : World unit := fun r w => (silence r, w).

(** A dry run that has not loaded a configuration. *)
Definition dry_start : state unit := State tt [] (Globals no_config 3 true ∅).

(** A configuration that excludes the RPM component [foo] and has no
    component of its own. *)
Definition ex_endpoint : endpoint :=
  Endpoint "https://src.example.com" (CacheCfg "https://cache" "/upload.cgi" "%(name)s")
    "koji" ∅.

Definition ex_main : main_cfg :=
  MainCfg ex_endpoint ex_endpoint ∅
    (BuildCfg "git+https://pkgs.example.com" "target" "platform:el8" false)
    (GitCfg "baker" "baker@example.com" "sync")
    (ControlCfg true true true {[ "foo" ]} ∅)
    (DefaultsCfg {[ "source" := "%(component)s" ]} ∅ ∅ ∅).

Definition ex_state : state unit :=
  State tt [] (Globals (Config (Some ex_main) (Some (CompsCfg ∅ ∅))) 3 false ∅).

(** A state that keeps the source session 7, started at time 0. *)
Definition ex_kept : state unit :=
  State tt []
    (Globals (Config (Some ex_main) (Some (CompsCfg ∅ ∅))) 3 false
       {[ "source" := (7%nat, 0%Z) ]}).

(** A module document with one module component and no RPM component. *)
Definition ex_mmd : modulemd := Modulemd [] [("base", ModuleComponent None None)].

(** A [configuration] block of which the trigger names no tag for RPMs. *)
Definition ex_document : yaml :=
  YMap [("trigger", YMap [("modules", YStr "mtag")])].

(** A tagging event. *)
Definition ex_message : message :=
  Message "org.centos.prod.buildsys.tag"
    {[ "name" := "foo"; "version" := "1.0"; "release" := "1.el8"; "tag" := "rtag" ]}.

(** The same configuration with its two trigger tags, in the strict
    mode. *)
Definition ex_strict : main_cfg :=
  MainCfg ex_endpoint ex_endpoint {[ "rpms" := "rtag"; "modules" := "mtag" ]}
    (main_build ex_main) (main_git ex_main) (main_control ex_main)
    (main_defaults ex_main).

Definition ex_strict_state : state unit :=
  State tt [] (Globals (Config (Some ex_strict) (Some (CompsCfg ∅ ∅))) 3 false ∅).

(** * Properties *)

(** ** SCM URL parsing *)

Example split_scmurl_ex1 :
  split_scmurl "https://src.example.org/rpms/bash#f33" =
  Scm "https://src.example.org/rpms/bash" (Some "f33") (Some "rpms") (Some "bash").
Proof. reflexivity. Qed.

Example split_scmurl_ex2 :
  split_scmurl "bash" = Scm "bash" None None (Some "bash").
Proof. reflexivity. Qed.

Example split_module_ex :
  split_module "perl:5.30" = ModuleCoord "perl" "5.30"
  /\ split_module "perl" = ModuleCoord "perl" "master"
  /\ split_module "perl:" = ModuleCoord "perl" "master".
Proof. repeat split. Qed.

Example format_ex :
  Py.format "%(component)s/%(stream)s-100%%" {[ "component" := "bash"; "stream" := "f33" ]}
  = Val "bash/f33-100%".
Proof. vm_compute. reflexivity. Qed.

Lemma split_upto_0 sep s : Py.split_upto sep 0 s = [s].
Proof. by destruct s. Qed.

(** Splitting once cuts at the first separator, if there is one. *)
Lemma split_upto_1 sep s :
  (Py.contains sep s = false /\ Py.split_upto sep 1 s = [s])
  \/ (exists l r, s = l +:+ String sep r /\ Py.contains sep l = false
                  /\ Py.split_upto sep 1 s = [l; r]).
Proof.
  induction s as [|a s IH]; [by left|].
  cbn [Py.split_upto Py.contains].
  destruct (Ascii.eqb a sep) eqn:E.
  - right. apply Ascii.eqb_eq in E as ->.
    exists "", s. by rewrite split_upto_0.
  - destruct IH as [[Hc ->]|(l & r & -> & Hc & ->)].
    + left. by rewrite Hc.
    + right. exists (String a l), r. cbn [Py.contains].
      by rewrite E, Hc.
Qed.

Lemma contains_app c l r :
  Py.contains c (l +:+ r) = Py.contains c l || Py.contains c r.
Proof.
  induction l as [|a l IH]; [done|].
  change (String a l +:+ r) with (String a (l +:+ r)).
  cbn [Py.contains]. rewrite IH. by rewrite orb_assoc.
Qed.

Lemma split_scmurl_no_ref s :
  Py.contains "#" s = false ->
  scm_link (split_scmurl s) = s /\ scm_ref (split_scmurl s) = None.
Proof.
  intros Hc. unfold split_scmurl.
  destruct (split_upto_1 "#" s) as [[_ ->]|(l & r & -> & _ & _)]; [done|].
  rewrite contains_app in Hc. cbn [Py.contains] in Hc.
  rewrite Ascii.eqb_refl in Hc. by destruct (Py.contains "#" l).
Qed.

Lemma app_inv_first_sep c l1 r1 l2 r2 :
  Py.contains c l1 = false -> Py.contains c l2 = false ->
  l1 +:+ String c r1 = l2 +:+ String c r2 -> l1 = l2 /\ r1 = r2.
Proof.
  revert l2. induction l1 as [|a l1 IH]; intros [|b l2] H1 H2 Heq.
  - by inversion Heq.
  - inversion Heq; subst. cbn in H2. by rewrite Ascii.eqb_refl in H2.
  - inversion Heq; subst. cbn in H1. by rewrite Ascii.eqb_refl in H1.
  - inversion Heq; subst. cbn in H1, H2.
    apply orb_false_iff in H1 as [_ H1]. apply orb_false_iff in H2 as [_ H2].
    destruct (IH l2 H1 H2) as [-> ->]; done.
Qed.

Lemma split_scmurl_with_ref l r :
  Py.contains "#" l = false ->
  scm_link (split_scmurl (l +:+ "#" +:+ r)) = l
  /\ scm_ref (split_scmurl (l +:+ "#" +:+ r)) = Some r.
Proof.
  intros Hl. unfold split_scmurl.
  destruct (split_upto_1 "#" (l +:+ "#" +:+ r))
    as [[Hc _]|(l' & r' & Heq & Hl' & ->)].
  - rewrite contains_app in Hc. cbn in Hc.
    by rewrite orb_true_r in Hc.
  - change (l +:+ "#" +:+ r) with (l +:+ String "#" r) in Heq.
    by destruct (app_inv_first_sep _ _ _ _ _ Hl Hl' Heq) as [-> ->].
Qed.

(** C9. Parsing an SCM URL and writing it back as [link#ref] (or as the
    bare link when no ref was found) gives the input again, for every
    input.  A string without [#] parses to itself with no ref; a string
    [link#ref], the link being what precedes its first [#], parses to
    exactly that link and that ref. *)
Theorem split_scmurl_roundtrip (s : string) :
  join_scmurl (split_scmurl s) = s
  /\ (Py.contains "#" s = false ->
      scm_link (split_scmurl s) = s /\ scm_ref (split_scmurl s) = None
      /\ join_scmurl (split_scmurl s) = scm_link (split_scmurl s))
  /\ (forall link ref, s = link +:+ "#" +:+ ref ->
      Py.contains "#" link = false ->
      scm_link (split_scmurl s) = link /\ scm_ref (split_scmurl s) = Some ref
      /\ join_scmurl (split_scmurl s) = link +:+ "#" +:+ ref).
Proof.
  split; [|split].
  - destruct (split_upto_1 "#" s) as [[Hc _]|(l & r & -> & Hl & _)].
    + destruct (split_scmurl_no_ref s Hc) as [H1 H2].
      unfold join_scmurl. by rewrite H2, H1.
    + destruct (split_scmurl_with_ref l r Hl) as [H1 H2].
      unfold join_scmurl.
      change (l +:+ String "#" r) with (l +:+ "#" +:+ r).
      by rewrite H2, H1.
  - intros Hc. destruct (split_scmurl_no_ref s Hc) as [H1 H2].
    unfold join_scmurl. by rewrite H2.
  - intros l r -> Hl. destruct (split_scmurl_with_ref l r Hl) as [H1 H2].
    unfold join_scmurl. by rewrite H2, H1.
Qed.

Lemma split_scmurl_roundtrip_witness :
  Py.contains "#" "https://src.example.org/rpms/bash" = false
  /\ scm_link (split_scmurl "https://src.example.org/rpms/bash#f33")
     = "https://src.example.org/rpms/bash"
  /\ scm_ref (split_scmurl "https://src.example.org/rpms/bash#f33") = Some "f33"
  /\ scm_ref (split_scmurl "bash") = None.
Proof.
  split; [reflexivity|].
  pose proof (split_scmurl_roundtrip "https://src.example.org/rpms/bash#f33")
    as (_ & _ & H).
  destruct (H "https://src.example.org/rpms/bash" "f33" eq_refl eq_refl)
    as (H1 & H2 & _).
  split; [exact H1|]. split; [exact H2|].
  pose proof (split_scmurl_roundtrip "bash") as (_ & H' & _).
  destruct (H' eq_refl) as (_ & H3 & _). exact H3.
Defined.
(** ** Module names *)

Lemma split_upto_none sep n s :
  Py.contains sep s = false -> Py.split_upto sep n s = [s].
Proof.
  induction s as [|a s IH]; [done|]. cbn [Py.contains Py.split_upto].
  intros [Ha Hs]%orb_false_iff. destruct n as [|n]; [done|].
  by rewrite Ha, (IH Hs).
Qed.

Lemma split_upto_first sep n l r :
  Py.contains sep l = false ->
  Py.split_upto sep (S n) (l +:+ String sep r) = l :: Py.split_upto sep n r.
Proof.
  induction l as [|a l IH]; intros Hl.
  - change ("" +:+ String sep r) with (String sep r).
    cbn [Py.split_upto]. by rewrite Ascii.eqb_refl.
  - cbn [Py.contains] in Hl. apply orb_false_iff in Hl as [Ha Hl].
    change (String a l +:+ String sep r) with (String a (l +:+ String sep r)).
    cbn [Py.split_upto]. by rewrite Ha, (IH Hl).
Qed.

Lemma split_upto_enough sep n s :
  String.length s <= n -> Py.split_upto sep n s = Py.split_upto sep (String.length s) s.
Proof.
  revert n. induction s as [|a s IH]; intros n Hn; [done|].
  cbn [String.length] in *. destruct n as [|n]; [lia|].
  cbn [Py.split_upto]. destruct (Ascii.eqb a sep).
  - by rewrite (IH n) by lia.
  - by rewrite (IH (S n)), (IH (S (String.length s))) by lia.
Qed.

Lemma length_append (l r : string) :
  String.length (l +:+ r) = String.length l + String.length r.
Proof. induction l as [|a l IH]; cbn; [done|]. by rewrite <- IH. Qed.

Lemma split_first sep l r :
  Py.contains sep l = false ->
  Py.split sep (l +:+ String sep r) = l :: Py.split sep r.
Proof.
  intros Hl. unfold Py.split. rewrite length_append. cbn [String.length].
  rewrite Nat.add_succ_r, split_upto_first by done.
  by rewrite split_upto_enough by lia.
Qed.

Lemma split_none sep s : Py.contains sep s = false -> Py.split sep s = [s].
Proof. apply split_upto_none. Qed.

(** X13: [split_module] on a name without a colon gives the name and the
    stream [master]; on [name:stream], with no further colon, it gives
    back the name and the stream, and [master] again when the stream is
    empty. *)
Theorem split_module_spec (name stream : string) :
  Py.contains ":" name = false ->
  Py.contains ":" stream = false ->
  split_module name = ModuleCoord name "master" /\
  split_module (name +:+ ":" +:+ stream)
    = ModuleCoord name (if Py.truthy stream then stream else "master").
Proof.
  intros Hn Hs. unfold split_module. split.
  - by rewrite split_none.
  - change (name +:+ ":" +:+ stream) with (name +:+ String ":" stream).
    rewrite split_first, (split_none _ stream) by done. done.
Qed.

Lemma split_module_spec_witness :
  split_module "perl" = ModuleCoord "perl" "master" /\
  split_module ("perl" +:+ ":" +:+ "5.30")
    = ModuleCoord "perl" (if Py.truthy "5.30" then "5.30" else "master").
Proof. apply (split_module_spec "perl" "5.30"); reflexivity. Defined.

(** ** The sources file *)

Example sre_match_ex1 :
  (match_ sre (Py.rstrip (md5_a +:+ "  bash-5.0.tar.gz" +:+ String newline ""))
     ≫= fun g => g !! "file") = Some "bash-5.0.tar.gz"
  /\ (match_ sre (md5_a +:+ "  bash-5.0.tar.gz") ≫= fun g => g !! "hash") = Some md5_a.
Proof. vm_compute. split; reflexivity. Qed.

Example sre_match_ex2 :
  (match_ sre ("SHA512 (a (1).tgz) = " +:+ sha_a) ≫= fun g => g !! "file")
    = Some "a (1).tgz"
  /\ (match_ sre ("SHA512 (a (1).tgz) = " +:+ sha_a) ≫= fun g => g !! "hash")
    = Some sha_a.
Proof. vm_compute. split; reflexivity. Qed.

Example parse_sources_ex :
  parse_sources (Lines [""; md5_a +:+ "  y"]) = None
  /\ parse_sources (Lines [md5_a +:+ " x"]) = None
  /\ parse_sources (Lines ["SHA512 (x) = " +:+ md5_a]) = None
  /\ parse_sources (Lines []) = Some ∅
  /\ parse_sources NoFile = Some ∅.
Proof. vm_compute. repeat split. Qed.

(** *** Strings *)

Lemma sapp_nil_l (t : string) : "" +:+ t = t.
Proof. reflexivity. Qed.

Lemma sapp_cons a (s t : string) : String a s +:+ t = String a (s +:+ t).
Proof. reflexivity. Qed.

Lemma sapp_nil_r (s : string) : s +:+ "" = s.
Proof. induction s as [|a s IH]; [done|]. by rewrite sapp_cons, IH. Qed.

Lemma sapp_assoc (a b c : string) : (a +:+ b) +:+ c = a +:+ (b +:+ c).
Proof. induction a as [|x a IH]; [done|]. by rewrite !sapp_cons, IH. Qed.

Lemma slen_app (a b : string) :
  String.length (a +:+ b) = String.length a + String.length b.
Proof. induction a as [|x a IH]; [done|]. rewrite sapp_cons. cbn. by rewrite IH. Qed.

Lemma stake_sdrop n s : stake n s +:+ sdrop n s = s.
Proof.
  revert s. induction n as [|n IH]; intros [|a s]; try done.
  cbn [stake sdrop]. by rewrite sapp_cons, IH.
Qed.

Lemma slen_stake n s : n <= String.length s -> String.length (stake n s) = n.
Proof.
  revert s. induction n as [|n IH]; intros [|a s] Hn; cbn in *; try done; try lia.
  rewrite IH; lia.
Qed.

Lemma slen_sdrop n s : String.length (sdrop n s) = String.length s - n.
Proof.
  revert s. induction n as [|n IH]; intros [|a s]; cbn; try done; try lia.
Qed.

Lemma stake_app a b : stake (String.length a) (a +:+ b) = a.
Proof. induction a as [|x a IH]; [by destruct b|]. rewrite sapp_cons. cbn. by rewrite IH. Qed.

Lemma sdrop_app a b : sdrop (String.length a) (a +:+ b) = b.
Proof. induction a as [|x a IH]; [done|]. by rewrite sapp_cons. Qed.

Lemma sdrop_sdrop n k s : sdrop n (sdrop k s) = sdrop (k + n) s.
Proof.
  revert s. induction k as [|k IH]; intros s; [done|].
  destruct s as [|a s]; [by destruct n|]. cbn. apply IH.
Qed.

Lemma strip_prefix_Some p s t : Py.strip_prefix p s = Some t <-> s = p +:+ t.
Proof.
  revert s. induction p as [|a p IH]; intros s; cbn.
  - rewrite sapp_nil_l. split; congruence.
  - destruct s as [|b s]; [by rewrite sapp_cons|].
    rewrite sapp_cons. destruct (Ascii.eqb a b) eqn:E.
    + apply Ascii.eqb_eq in E as ->. rewrite IH. split; congruence.
    + apply Ascii.eqb_neq in E. split; [done|]. intros [=]. congruence.
Qed.

Lemma strip_prefix_app p t : Py.strip_prefix p (p +:+ t) = Some t.
Proof. by apply strip_prefix_Some. Qed.

Lemma sall_app p a b : sall p (a +:+ b) = sall p a && sall p b.
Proof.
  induction a as [|x a IH]; [done|].
  rewrite sapp_cons. cbn. by rewrite IH, andb_assoc.
Qed.

Lemma run_le p s : run p s <= String.length s.
Proof. induction s as [|a s IH]; cbn; [lia|]. destruct (p a); lia. Qed.

Lemma run_sall p s : sall p s = true -> run p s = String.length s.
Proof.
  induction s as [|a s IH]; [done|]. cbn.
  intros [-> H]%andb_true_iff. by rewrite IH.
Qed.

Lemma sall_stake_run p n s : n <= run p s -> sall p (stake n s) = true.
Proof.
  revert s. induction n as [|n IH]; intros [|a s] Hn; cbn in *; try done; try lia.
  destruct (p a); [|lia]. cbn. apply IH. lia.
Qed.

Lemma run_app_all p a b : sall p a = true -> run p (a +:+ b) = String.length a + run p b.
Proof.
  induction a as [|x a IH]; [done|]. rewrite sapp_cons. cbn.
  intros [-> H]%andb_true_iff. by rewrite IH.
Qed.

(** *** The matcher on classes *)

Lemma orelse_None_r {A} (x : option A) : orelse x None = x.
Proof. by destruct x. Qed.

Lemma orelse_assoc {A} (x y z : option A) :
  orelse (orelse x y) z = orelse x (orelse y z).
Proof. by destruct x. Qed.

Lemma first_down_shift {A} (f : nat -> option A) r :
  first_down f (S r) = orelse (first_down (fun n => f (S n)) r) (f 1).
Proof.
  induction r as [|r IH]; [cbn; by rewrite orelse_None_r|].
  change (first_down f (S (S r))) with (orelse (f (S (S r))) (first_down f (S r))).
  rewrite IH. cbn [first_down]. by rewrite orelse_assoc.
Qed.

Lemma first_down_Some {A} (f : nat -> option A) r x :
  first_down f r = Some x ->
  exists n, 1 <= n <= r /\ f n = Some x.
Proof.
  induction r as [|r IH]; [done|]. cbn.
  destruct (f (S r)) eqn:E; cbn.
  - intros [= ->]. exists (S r). split; [lia|done].
  - intros (n & Hn & Hf)%IH. exists n. split; [lia|done].
Qed.

Lemma first_down_top {A} (f : nat -> option A) r n x :
  1 <= n <= r -> f n = Some x -> (forall j, n < j <= r -> f j = None) ->
  first_down f r = Some x.
Proof.
  intros Hn Hf Hab. induction r as [|r IH]; [lia|]. cbn.
  destruct (decide (n = S r)) as [->|Hne]; [by rewrite Hf|].
  rewrite (Hab (S r)) by lia. cbn. apply IH; [lia|].
  intros j Hj. apply Hab. lia.
Qed.

Lemma first_down_ext {A} (f g : nat -> option A) r :
  (forall n, f n = g n) -> first_down f r = first_down g r.
Proof. intros H. induction r as [|r IH]; [done|]. cbn. by rewrite H, IH. Qed.

Lemma advance_0 st : advance 0 st = st.
Proof. destruct st; unfold advance; cbn. f_equal. lia. Qed.

Lemma advance_advance n k st : advance n (advance k st) = advance (k + n) st.
Proof.
  destruct st as [p r c]; unfold advance; cbn. f_equal; [lia|].
  apply sdrop_sdrop.
Qed.

(** [p{n}] consumes exactly [n] characters of the class. *)
Lemma rep_class p n st k :
  rep_m n (m (Class p)) st k =
  if decide (n <= String.length (rest st)) then
    if sall p (stake n (rest st)) then k (advance n st) else None
  else None.
Proof.
  revert st. induction n as [|n IH]; intros st.
  - cbn. rewrite advance_0. case_decide; [done|lia].
  - cbn [rep_m m]. destruct (rest st) as [|a s] eqn:Hr.
    { case_decide; [cbn in *; lia|done]. }
    destruct (p a) eqn:Hp.
    + rewrite IH. rewrite advance_advance.
      replace (rest (advance 1 st)) with s by (by unfold advance; rewrite Hr).
      cbn [stake sall String.length]. rewrite Hp. cbn.
      repeat case_decide; try done; lia.
    + cbn [stake sall]. rewrite Hp. cbn. by case_decide.
Qed.

(** Greedy [p+] tries the longest run of the class first and gives back
    one character at a time. *)
Lemma plus_class p fuel st k :
  String.length (rest st) < fuel ->
  plus_m fuel (m (Class p)) st k =
  first_down (fun n => k (advance n st)) (run p (rest st)).
Proof.
  revert st. induction fuel as [|fuel IH]; intros st Hf; [lia|].
  cbn [plus_m m]. destruct (rest st) as [|a s] eqn:Hr; [done|].
  cbn [run]. destruct (p a) eqn:Hp; [|done].
  rewrite first_down_shift.
  assert (Hs : rest (advance 1 st) = s) by (by unfold advance; rewrite Hr).
  rewrite decide_True by (cbn; lia).
  rewrite IH by (rewrite Hs; cbn in Hf; lia).
  rewrite Hs. f_equal.
  apply first_down_ext. intros n. by rewrite advance_advance.
Qed.
Lemma first_down_total {A} (f : nat -> option A) r x :
  f (S r) = Some x -> first_down f (S r) = Some x.
Proof. intros H. cbn. by rewrite H. Qed.

Lemma m_seq r1 r2 st k : m (Seq r1 r2) st k = m r1 st (fun st' => m r2 st' k).
Proof. reflexivity. Qed.
Lemma m_alt r1 r2 st k : m (Alt r1 r2) st k = orelse (m r1 st k) (m r2 st k).
Proof. reflexivity. Qed.
Lemma m_rep n r st k : m (Rep n r) st k = rep_m n (m r) st k.
Proof. reflexivity. Qed.
Lemma m_plus r st k :
  m (Plus r) st k = plus_m (S (String.length (rest st))) (m r) st k.
Proof. reflexivity. Qed.
Lemma m_atomic r st k :
  m (Atomic r) st k = match m r st Some with Some st' => k st' | None => None end.
Proof. reflexivity. Qed.
Lemma m_group g r st k :
  m (Group g r) st k = m r st (fun st' => k (capture g st st')).
Proof. reflexivity. Qed.
Lemma m_lit l st k :
  m (Lit l) st k = match Py.strip_prefix l (rest st) with
                   | Some _ => k (advance (String.length l) st)
                   | None => None
                   end.
Proof. reflexivity. Qed.
Lemma m_bol st k : m Bol st k = if decide (pos st = 0) then k st else None.
Proof. reflexivity. Qed.
Lemma m_eol st k : m Eol st k = if at_end (rest st) then k st else None.
Proof. reflexivity. Qed.


Lemma first_down_const {A} (g : nat -> A) r :
  first_down (fun n => Some (g n)) r = match r with O => None | S _ => Some (g r) end.
Proof. by destruct r. Qed.

Lemma at_end_nil : at_end "" = true.
Proof. reflexivity. Qed.

Lemma sdrop_all s : sdrop (String.length s) s = "".
Proof. induction s; [done|]. done. Qed.

Lemma stake_all s : stake (String.length s) s = s.
Proof. induction s as [|a s IH]; [done|]. cbn. by rewrite IH. Qed.

Lemma slen_pos s : s <> "" -> 1 <= String.length s.
Proof. destruct s; [done|]. cbn. lia. Qed.

Lemma stake_app_n n a b : String.length a = n -> stake n (a +:+ b) = a.
Proof. intros <-. apply stake_app. Qed.

Lemma sdrop_app_n n a b : String.length a = n -> sdrop n (a +:+ b) = b.
Proof. intros <-. apply sdrop_app. Qed.

Ltac st_simpl := unfold advance, capture; cbn [pos rest caps].

Lemma sre_md5 h f :
  hex_digest 32 h -> file_name f ->
  match_ sre (h +:+ "  " +:+ f) = Some (<["file" := f]> (<["hash" := h]> ∅)).
Proof.
  intros [Hl Hh] [Hne Hf].
  unfold match_, sre. rewrite m_seq, m_bol, decide_True by done.
  rewrite m_seq, m_atomic, m_alt, m_seq, m_group, m_rep.
  rewrite rep_class. st_simpl.
  rewrite decide_True by (rewrite slen_app; lia).
  rewrite (stake_app_n 32), (sdrop_app_n 32) by done. rewrite Hh.
  rewrite m_seq, m_lit. st_simpl.
  rewrite strip_prefix_app.
  rewrite (sdrop_app_n (String.length "  ")) by done.
  rewrite m_group, m_plus, plus_class by (cbn; lia).
  st_simpl.
  rewrite first_down_const, (run_sall _ _ Hf).
  pose proof (slen_pos f Hne) as Hp.
  destruct (String.length f) as [|n] eqn:Hn; [lia|].
  cbn [orelse]. rewrite m_eol. st_simpl. rewrite <- Hn, sdrop_all, at_end_nil.
  cbn [fmap option_fmap option_map caps]. f_equal. f_equal.
  - replace (0 + 32 + String.length "  " + String.length f - (0 + 32 + String.length "  "))
      with (String.length f) by lia. apply stake_all.
  - change (0 + 32 - 0) with 32. by rewrite (stake_app_n 32).
Qed.
Lemma hexlow_dot c : hexlow c = true -> dot c = true.
Proof.
  unfold hexlow, dot. intros H.
  destruct (Ascii.eqb c newline) eqn:E; [|done].
  apply Ascii.eqb_eq in E. subst c. done.
Qed.

Lemma sall_impl (p q : ascii -> bool) s :
  (forall c, p c = true -> q c = true) -> sall p s = true -> sall q s = true.
Proof.
  intros Hpq. induction s as [|a s IH]; [done|]. cbn.
  intros [Ha Hs]%andb_true_iff. by rewrite (Hpq _ Ha), IH.
Qed.

Lemma strip_prefix_sdrop p s t :
  Py.strip_prefix p s = Some t -> sdrop (String.length p) s = t.
Proof. intros ->%strip_prefix_Some. apply sdrop_app. Qed.

(** The tail of the second format, [\) = [a-f0-9]{128}], from any state. *)
Lemma sha_tail p0 R c0 :
  m (Seq (Lit ") = ") (Group "hash" (Rep 128 (Class hexlow))))
    (MState p0 R c0) Some =
  match Py.strip_prefix ") = " R with
  | Some t =>
      if decide (128 <= String.length t) then
        if sall hexlow (stake 128 t)
        then Some (MState (p0 + 4 + 128) (sdrop 128 t)
                     (<["hash" := stake 128 t]> c0))
        else None
      else None
  | None => None
  end.
Proof.
  rewrite m_seq, m_lit. st_simpl.
  destruct (Py.strip_prefix ") = " R) as [t|] eqn:E; [|done].
  rewrite (strip_prefix_sdrop _ _ _ E).
  rewrite m_group, m_rep, rep_class. st_simpl.
  case_decide; [|done]. destruct (sall hexlow (stake 128 t)); [|done].
  change (String.length ") = ") with 4.
  replace (p0 + 4 + 128 - (p0 + 4)) with 128 by lia. reflexivity.
Qed.

Lemma sre_sha512 h f :
  hex_digest 128 h -> file_name f ->
  match_ sre ("SHA512 (" +:+ f +:+ ") = " +:+ h)
  = Some (<["hash" := h]> (<["file" := f]> ∅)).
Proof.
  intros [Hl Hh] [Hne Hf].
  unfold match_, sre. rewrite m_seq, m_bol, decide_True by done.
  rewrite m_seq, m_atomic, m_alt, m_seq, m_group, m_rep.
  rewrite rep_class. st_simpl.
  replace (sall hexlow (stake 32 ("SHA512 (" +:+ f +:+ ") = " +:+ h))) with false
    by reflexivity.
  replace (if decide (32 ≤ String.length ("SHA512 (" +:+ f +:+ ") = " +:+ h))
           then None else None) with (@None mstate) by (by case_decide).
  cbn [orelse].
  rewrite m_seq, m_lit. st_simpl. rewrite strip_prefix_app.
  rewrite (sdrop_app_n (String.length "SHA512 (")) by done.
  rewrite m_seq, m_group, m_plus, plus_class by (cbn; lia). st_simpl.
  rewrite (first_down_ext _ _ _ (fun n => sha_tail _ _ _)).
  assert (Hd : sall dot (f +:+ ") = " +:+ h) = true).
  { rewrite !sall_app, Hf. cbn. apply (sall_impl hexlow dot); auto using hexlow_dot. }
  rewrite (run_sall _ _ Hd), !slen_app.
  rewrite (first_down_top _ _ (String.length f)
             (MState (0 + String.length "SHA512 (" + String.length f + 4 + 128) ""
                     (<["hash":=h]> (<["file":=f]> ∅)))).
  - rewrite m_eol. st_simpl. reflexivity.
  - pose proof (slen_pos f Hne). cbn. lia.
  - rewrite sdrop_app, strip_prefix_app.
    rewrite decide_True by lia.
    rewrite <- Hl. rewrite stake_all, sdrop_all, Hh.
    replace (0 + String.length "SHA512 (" + String.length f
             - (0 + String.length "SHA512 (")) with (String.length f) by lia.
    by rewrite stake_app.
  - intros j Hj.
    destruct (Py.strip_prefix ") = " (sdrop j (f +:+ ") = " +:+ h))) as [t|] eqn:E;
      [|done].
    apply strip_prefix_Some in E.
    assert (String.length (sdrop j (f +:+ ") = " +:+ h)) = 4 + String.length t)
      by (by rewrite E, slen_app).
    rewrite slen_sdrop, !slen_app in H. cbn in H, Hj.
    rewrite decide_False by lia. done.
Qed.
Lemma rstrip_last l a c :
  Py.rstrip l = a +:+ String c "" -> Py.isspace c = false.
Proof.
  revert a. induction l as [|c0 l IH]; intros a; cbn.
  - destruct a; discriminate.
  - destruct (Py.rstrip l) as [|r0 r] eqn:E.
    + destruct (Py.isspace c0) eqn:Hs; [destruct a; discriminate|].
      destruct a as [|a0 a]; [by intros [= <-]|].
      rewrite sapp_cons. intros [= _ H]. destruct a; discriminate.
    + destruct a as [|a0 a]; [discriminate|].
      rewrite sapp_cons. intros [= _ H]. by apply (IH a).
Qed.

Lemma at_end_inv x : at_end x = true -> x = "" \/ x = String newline "".
Proof.
  destruct x as [|c [|]]; cbn; try done; [by left|].
  intros ->%Ascii.eqb_eq. by right.
Qed.

(** A suffix of a stripped line at which [$] matches is empty. *)
Lemma at_end_rstrip l a x :
  Py.rstrip l = a +:+ x -> at_end x = true -> x = "".
Proof.
  intros Hl [->| ->]%at_end_inv; [done|].
  by apply rstrip_last in Hl.
Qed.

Lemma stake_nonempty n s : 1 <= n -> 1 <= String.length s -> stake n s <> "".
Proof. destruct n, s; cbn; try lia; done. Qed.

Lemma alt_md5_inv s st :
  m (Seq (Group "hash" (Rep 32 (Class hexlow)))
       (Seq (Lit "  ") (Group "file" (Plus (Class dot)))))
    (MState 0 s ∅) Some = Some st ->
  exists t, s = stake 32 s +:+ "  " +:+ t /\ 32 <= String.length s
    /\ sall hexlow (stake 32 s) = true /\ 1 <= run dot t
    /\ rest st = sdrop (run dot t) t.
Proof.
  rewrite m_seq, m_group, m_rep, rep_class. st_simpl.
  case_decide as Hlen; [|done].
  destruct (sall hexlow (stake 32 s)) eqn:Hh; [|done].
  rewrite m_seq, m_lit. st_simpl.
  destruct (Py.strip_prefix "  " (sdrop 32 s)) as [t|] eqn:E; [|done].
  rewrite (strip_prefix_sdrop _ _ _ E).
  rewrite m_group, m_plus, plus_class by (cbn; lia). st_simpl.
  rewrite first_down_const.
  destruct (run dot t) as [|r] eqn:Hr; [done|]. intros [= <-].
  apply strip_prefix_Some in E.
  exists t. rewrite <- E, stake_sdrop. cbn [rest]. rewrite Hr.
  repeat split; try done; lia.
Qed.

Lemma alt_sha512_inv s st :
  m (Seq (Lit "SHA512 (")
       (Seq (Group "file" (Plus (Class dot)))
          (Seq (Lit ") = ") (Group "hash" (Rep 128 (Class hexlow))))))
    (MState 0 s ∅) Some = Some st ->
  exists t n u, s = "SHA512 (" +:+ t /\ 1 <= n <= run dot t
    /\ sdrop n t = ") = " +:+ u /\ 128 <= String.length u
    /\ sall hexlow (stake 128 u) = true /\ rest st = sdrop 128 u.
Proof.
  rewrite m_seq, m_lit. st_simpl.
  destruct (Py.strip_prefix "SHA512 (" s) as [t|] eqn:E; [|done].
  rewrite (strip_prefix_sdrop _ _ _ E).
  rewrite m_seq, m_group, m_plus, plus_class by (cbn; lia). st_simpl.
  rewrite (first_down_ext _ _ _ (fun n => sha_tail _ _ _)).
  intros (n & Hn & Hk)%first_down_Some.
  destruct (Py.strip_prefix ") = " (sdrop n t)) as [u|] eqn:Eu; [|done].
  case_decide as Hlen; [|done].
  destruct (sall hexlow (stake 128 u)) eqn:Hh; [|done].
  injection Hk as <-.
  apply strip_prefix_Some in E, Eu.
  exists t, n, u. cbn [rest]. repeat split; try done; lia.
Qed.

Lemma sre_sound l g :
  match_ sre (Py.rstrip l) = Some g -> exists e, line_format (Py.rstrip l) e.
Proof.
  set (s := Py.rstrip l). assert (Hs : Py.rstrip l = s) by done. clearbody s.
  unfold match_, sre. rewrite m_seq, m_bol, decide_True by done.
  rewrite m_seq, m_atomic, m_alt.
  match goal with |- context [orelse ?x ?y] =>
    destruct x as [st|] eqn:E1; cbn [orelse];
    [|destruct y as [st|] eqn:E2; [|done]] end.
  - apply alt_md5_inv in E1 as (t & Hst & Hlen & Hh & Hr & Hrest).
    rewrite m_eol, Hrest.
    destruct (at_end (sdrop (run dot t) t)) eqn:He; [|done]. intros _.
    assert (Hx : sdrop (run dot t) t = "").
    { apply (at_end_rstrip l (stake 32 s +:+ "  " +:+ stake (run dot t) t)); [|done].
      rewrite Hs, !sapp_assoc, stake_sdrop. exact Hst. }
    assert (Hl32 : String.length (stake 32 s) = 32) by (by apply slen_stake).
    remember (stake 32 s) as h eqn:Hh32.
    exists (t, h, "md5"). rewrite Hst. constructor.
    + split; done.
    + split.
      * pose proof (run_le dot t). destruct t; cbn in *; [lia|done].
      * rewrite <- (stake_sdrop (run dot t) t), Hx, sapp_nil_r.
        by apply sall_stake_run.
  - apply alt_sha512_inv in E2 as (t & n & u & Hst & Hn & Hd & Hlen & Hh & Hrest).
    rewrite m_eol, Hrest.
    destruct (at_end (sdrop 128 u)) eqn:He; [|done]. intros _.
    assert (Ht : t = stake n t +:+ ") = " +:+ u).
    { rewrite <- Hd. by rewrite stake_sdrop. }
    assert (Hu : u = stake 128 u +:+ sdrop 128 u) by (by rewrite stake_sdrop).
    assert (Hx : sdrop 128 u = "").
    { apply (at_end_rstrip l ("SHA512 (" +:+ stake n t +:+ ") = " +:+ stake 128 u));
        [|done].
      rewrite Hs, Hst, !sapp_assoc. by rewrite <- Hu, <- Ht. }
    exists (stake n t, stake 128 u, "sha512").
    assert (Hs' : s = "SHA512 (" +:+ stake n t +:+ ") = " +:+ stake 128 u).
    { rewrite Hst. f_equal. rewrite Ht at 1. do 2 f_equal.
      rewrite Hu at 1. by rewrite Hx, sapp_nil_r. }
    rewrite Hs'. constructor.
    + split; [by apply slen_stake|done].
    + pose proof (run_le dot t). split.
      * apply stake_nonempty; lia.
      * apply sall_stake_run. lia.
Qed.
(** What [parse_sources] adds to the set for a line of either format. *)
Lemma line_entry l e :
  line_format (Py.rstrip l) e ->
  exists g, match_ sre (Py.rstrip l) = Some g
    /\ g !! "file" = Some e.1.1 /\ g !! "hash" = Some e.1.2
    /\ e.2 = if decide (String.length e.1.2 = 128) then "sha512" else "md5".
Proof.
  intros H. inversion H as [h f Hh Hf Heq|h f Hh Hf Heq]; subst e; cbn [fst snd].
  - eexists. split; [by apply sre_md5|].
    destruct Hh as [Hl _]. rewrite Hl. by simplify_map_eq.
  - eexists. split; [by apply sre_sha512|].
    destruct Hh as [Hl _]. rewrite Hl. by simplify_map_eq.
Qed.

Lemma parse_lines_accepted ls src :
  (forall l, l ∈ ls -> accepted l) ->
  exists S, parse_lines ls src = Some S
    /\ forall e, e ∈ S <-> e ∈ src \/ exists l, l ∈ ls /\ line_format (Py.rstrip l) e.
Proof.
  revert src. induction ls as [|l ls IH]; intros src Hall.
  - exists src. split; [done|]. intros e. split; [by left|].
    intros [?|(l & Hl & _)]; [done|]. by apply elem_of_nil in Hl.
  - destruct (Hall l) as [[[f h] t] He]; [by left|].
    destruct (line_entry l _ He) as (g & Hm & Hf & Hh & Ht). cbn [fst snd] in *.
    cbn [parse_lines]. rewrite Hm, Hf, Hh, <- Ht.
    destruct (IH ({[(f, h, t)]} ∪ src)) as (S & HS & Hiff).
    { intros l' Hl'. apply Hall. by right. }
    exists S. split; [done|]. intros e. rewrite Hiff. split.
    + intros [Hu|(l' & Hl' & Hfmt)].
      * apply elem_of_union in Hu as [Hu|Hu]; [|by left].
        apply elem_of_singleton in Hu as ->.
        right. exists l. split; [by left|done].
      * right. exists l'. split; [by right|done].
    + intros [?|(l' & Hl' & Hfmt)]; [left; set_solver|].
      apply elem_of_cons in Hl' as [->|Hl']; [|right; eauto].
      left. apply elem_of_union. left. apply elem_of_singleton.
      destruct (line_entry l _ Hfmt) as (g' & Hm' & Hf' & Hh' & Ht').
      rewrite Hm in Hm'. injection Hm' as <-.
      destruct e as [[f' h'] t']. cbn [fst snd] in *.
      rewrite Hf in Hf'. rewrite Hh in Hh'.
      injection Hf' as <-. injection Hh' as <-. by rewrite Ht, Ht'.
Qed.

Lemma parse_lines_rejected ls src l :
  l ∈ ls -> ~ accepted l -> parse_lines ls src = None.
Proof.
  revert src. induction ls as [|l0 ls IH]; intros src Hin Hbad.
  - by apply elem_of_nil in Hin.
  - cbn [parse_lines].
    destruct (match_ sre (Py.rstrip l0)) as [g|] eqn:Hm; [|done].
    destruct (sre_sound _ _ Hm) as [e He].
    apply elem_of_cons in Hin as [->|Hin]; [destruct Hbad; by exists e|].
    destruct (line_entry l0 _ He) as (g' & Hm' & Hf & Hh & _).
    rewrite Hm in Hm'. injection Hm' as <-. rewrite Hf, Hh. by apply IH.
Qed.

Lemma blank_not_accepted l : Py.rstrip l = "" -> ~ accepted l.
Proof.
  intros Hl [e He]. rewrite Hl in He.
  inversion He as [h f [Hlen _] _ Heq|h f _ _ Heq]; try discriminate.
  destruct h; [discriminate Hlen|discriminate Heq].
Qed.

(** C7. A missing sources file parses to the empty set.  When every
    line, read up to its trailing white space, has one of the two
    formats, the result is the set of the entries the lines describe,
    and in it an entry is typed md5 exactly when its hash is a digest of
    32 hexadecimal characters and sha512 exactly when it is one of 128.
    A line that is not empty and has neither format makes the result the
    error value. *)
Theorem parse_sources_spec :
  parse_sources NoFile = Some ∅
  /\ (forall ls, (forall l, l ∈ ls -> accepted l) ->
      exists S, parse_sources (Lines ls) = Some S
        /\ (forall e, e ∈ S <-> exists l, l ∈ ls /\ line_format (Py.rstrip l) e)
        /\ (forall f h t, (f, h, t) ∈ S ->
              (t = "md5" <-> hex_digest 32 h)
              /\ (t = "sha512" <-> hex_digest 128 h)))
  /\ (forall ls l, l ∈ ls -> Py.rstrip l <> "" -> ~ accepted l ->
      parse_sources (Lines ls) = None).
Proof.
  split; [done|]. split.
  - intros ls Hall. destruct (parse_lines_accepted ls ∅ Hall) as (S & HS & Hiff).
    assert (Hiff' : forall e, e ∈ S <->
              exists l, l ∈ ls /\ line_format (Py.rstrip l) e).
    { intros e. rewrite Hiff. split; [|by right]. intros [?|?]; [set_solver|done]. }
    exists S. split; [done|]. split; [done|].
    intros f h t (l & _ & Hfmt)%Hiff'.
    inversion Hfmt as [h' f' Hh Hf Heq|h' f' Hh Hf Heq]; subst.
    + split; split; try done. intros [Hl _]. destruct Hh as [Hl' _].
      rewrite Hl in Hl'. discriminate.
    + split; split; try done. intros [Hl _]. destruct Hh as [Hl' _].
      rewrite Hl in Hl'. discriminate.
  - intros ls l Hin _ Hbad. by apply (parse_lines_rejected ls ∅ l).
Qed.

(** C10. A line that is empty once its trailing white space is stripped
    makes [parse_sources] return the error value, wherever it stands in
    the file: blank lines are not skipped. *)
Theorem parse_sources_blank_line ls l :
  l ∈ ls -> Py.rstrip l = "" -> parse_sources (Lines ls) = None.
Proof.
  intros Hin Hl. apply (parse_lines_rejected ls ∅ l Hin).
  by apply blank_not_accepted.
Qed.
Lemma parse_sources_spec_witness :
  (forall l, l ∈ [md5_a +:+ "  bash.tgz " ] -> accepted l)
  /\ exists S, parse_sources (Lines [md5_a +:+ "  bash.tgz "]) = Some S
       /\ ("bash.tgz", md5_a, "md5") ∈ S.
Proof.
  assert (Hacc : forall l, l ∈ [md5_a +:+ "  bash.tgz " ] -> accepted l).
  { intros l ->%list_elem_of_singleton. exists ("bash.tgz", md5_a, "md5").
    change (Py.rstrip (md5_a +:+ "  bash.tgz ")) with (md5_a +:+ "  " +:+ "bash.tgz").
    constructor; split; [reflexivity|reflexivity|discriminate|reflexivity]. }
  split; [exact Hacc|].
  destruct parse_sources_spec as (_ & H & _).
  destruct (H [md5_a +:+ "  bash.tgz "] Hacc) as (S & HS & Hiff & _).
  exists S. split; [exact HS|]. apply Hiff.
  exists (md5_a +:+ "  bash.tgz "). split; [by left|].
  change (Py.rstrip (md5_a +:+ "  bash.tgz ")) with (md5_a +:+ "  " +:+ "bash.tgz").
  constructor; split; [reflexivity|reflexivity|discriminate|reflexivity].
Defined.

Lemma parse_sources_blank_line_witness :
  "  " ∈ [md5_a +:+ "  a.tgz"; "  "; md5_a +:+ "  b.tgz"]
  /\ Py.rstrip "  " = ""
  /\ parse_sources (Lines [md5_a +:+ "  a.tgz"; "  "; md5_a +:+ "  b.tgz"]) = None.
Proof.
  assert (Hin : "  " ∈ [md5_a +:+ "  a.tgz"; "  "; md5_a +:+ "  b.tgz"])
    by (right; left).
  split; [exact Hin|]. split; [reflexivity|].
  exact (parse_sources_blank_line _ "  " Hin eq_refl).
Defined.
(** ** Component records *)

Import Regex.

Lemma first_down_None {A} (f : nat -> option A) r :
  (forall n, 1 <= n <= r -> f n = None) -> first_down f r = None.
Proof.
  induction r as [|r IH]; [done|]. intros H. cbn.
  rewrite (H (S r)) by lia. cbn. apply IH. intros n Hn. apply H. lia.
Qed.

Lemma compchar_newline a : compchar a = true -> Ascii.eqb a newline = false.
Proof.
  intros H. destruct (Ascii.eqb a newline) eqn:E; [|done].
  apply Ascii.eqb_eq in E as ->. by vm_compute in H.
Qed.

(** Inside a run of component characters the subject has not ended. *)
Lemma at_end_run n t : n < run compchar t -> at_end (sdrop n t) = false.
Proof.
  revert t. induction n as [|n IH]; intros t Hn.
  - destruct t as [|a t]; [cbn in Hn; lia|]. cbn [sdrop run] in *.
    destruct (compchar a) eqn:Ha; [|lia].
    cbn. destruct t; [by apply compchar_newline|done].
  - destruct t as [|a t]; [cbn in Hn; lia|]. cbn [sdrop run] in *.
    destruct (compchar a); [|lia]. apply IH. lia.
Qed.

(** What follows the namespace: the slash, the longest run of component
    characters, and the end. *)
Lemma cre_tail p0 R c0 :
  m (Seq (Lit "/") (Seq (Group "component" (Plus (Class compchar))) Eol))
    (MState p0 R c0) Some =
  match Py.strip_prefix "/" R with
  | Some t =>
      if ((1 <=? run compchar t) && at_end (sdrop (run compchar t) t))%bool
      then Some (MState (p0 + 1 + run compchar t) (sdrop (run compchar t) t)
                   (<["component" := stake (run compchar t) t]> c0))
      else None
  | None => None
  end.
Proof.
  rewrite m_seq, m_lit. st_simpl.
  destruct (Py.strip_prefix "/" R) as [t|] eqn:E; [|done].
  rewrite (strip_prefix_sdrop _ _ _ E).
  rewrite m_seq, m_group, m_plus, plus_class by (cbn; lia). st_simpl.
  change (String.length "/") with 1.
  destruct (run compchar t) as [|r] eqn:Hr; [done|].
  cbn [Nat.leb andb].
  destruct (at_end (sdrop (S r) t)) eqn:He.
  - apply first_down_total. rewrite m_eol. st_simpl. rewrite He.
    by replace (p0 + 1 + S r - (p0 + 1)) with (S r) by lia.
  - apply first_down_None. intros n Hn. rewrite m_eol. st_simpl.
    destruct (decide (n = S r)) as [->|Hne]; [by rewrite He|].
    rewrite at_end_run by lia. done.
Qed.

Lemma run_tail tail : tail = "" \/ tail = String newline "" -> run compchar tail = 0.
Proof. by intros [-> | ->]. Qed.

Lemma cre_namespace ns rec :
  m (Lit ns) (MState 0 rec ∅)
    (fun st' =>
       m (Seq (Lit "/") (Seq (Group "component" (Plus (Class compchar))) Eol))
         (capture "namespace" (MState 0 rec ∅) st') Some) =
  match Py.strip_prefix ns rec with
  | Some t =>
      match Py.strip_prefix "/" t with
      | Some u =>
          if ((1 <=? run compchar u) && at_end (sdrop (run compchar u) u))%bool
          then Some (MState (String.length ns + 1 + run compchar u)
                       (sdrop (run compchar u) u)
                       (<["component" := stake (run compchar u) u]>
                          (<["namespace" := ns]> ∅)))
          else None
      | None => None
      end
  | None => None
  end.
Proof.
  rewrite m_lit. st_simpl.
  destruct (Py.strip_prefix ns rec) as [t|] eqn:E; [|done].
  rewrite (strip_prefix_sdrop _ _ _ E), cre_tail.
  apply strip_prefix_Some in E as ->.
  replace (0 + String.length ns - 0) with (String.length ns) by lia.
  by rewrite stake_app.
Qed.

Lemma cre_accepts (ns comp tail : string) :
  ns = "rpms" \/ ns = "modules" ->
  comp <> "" -> sall compchar comp = true ->
  tail = "" \/ tail = String newline "" ->
  match_ cre (ns +:+ "/" +:+ comp +:+ tail)
    = Some (<["component" := comp]> (<["namespace" := ns]> ∅)).
Proof.
  intros Hns Hne Hall Htail.
  unfold match_, cre. rewrite m_seq, m_bol, decide_True by done.
  rewrite m_seq, m_group, m_alt, !cre_namespace.
  assert (Hrun : run compchar (comp +:+ tail) = String.length comp).
  { rewrite run_app_all, run_tail by done. lia. }
  assert (H :
    match Py.strip_prefix ns (ns +:+ "/" +:+ comp +:+ tail) with
    | Some t =>
        match Py.strip_prefix "/" t with
        | Some u =>
            if ((1 <=? run compchar u) && at_end (sdrop (run compchar u) u))%bool
            then Some (MState (String.length ns + 1 + run compchar u)
                         (sdrop (run compchar u) u)
                         (<["component" := stake (run compchar u) u]>
                            (<["namespace" := ns]> ∅)))
            else None
        | None => None
        end
    | None => None
    end = Some (MState (String.length ns + 1 + String.length comp) tail
             (<["component" := comp]> (<["namespace" := ns]> ∅)))).
  { rewrite strip_prefix_app.
    change ("/" +:+ comp +:+ tail) with (String "/" (comp +:+ tail)).
    cbn [Py.strip_prefix]. rewrite Ascii.eqb_refl. cbn [Py.strip_prefix].
    rewrite Hrun, sdrop_app, stake_app.
    pose proof (slen_pos comp Hne).
    rewrite (proj2 (Nat.leb_le 1 (String.length comp))) by done.
    by destruct Htail as [-> | ->]. }
  destruct Hns as [-> | ->].
  - by rewrite H.
  - rewrite H. reflexivity.
Qed.

(** X17: [cre] accepts exactly the records [rpms/<component>] and
    [modules/<component>], the component a non-empty run of letters,
    digits and [: . _ + -], with nothing after it but, possibly, one
    final newline; the groups are the namespace and the component. *)
Theorem cre_spec (rec : string) (d : gmap string string) :
  match_ cre rec = Some d <->
  exists ns comp tail,
    rec = ns +:+ "/" +:+ comp +:+ tail /\
    (ns = "rpms" \/ ns = "modules") /\
    comp <> "" /\ sall compchar comp = true /\
    (tail = "" \/ tail = String newline "") /\
    d = <["component" := comp]> (<["namespace" := ns]> ∅).
Proof.
  split.
  - unfold match_, cre. rewrite m_seq, m_bol, decide_True by done.
    rewrite m_seq, m_group, m_alt, !cre_namespace.
    assert (H : forall ns, (ns = "rpms" \/ ns = "modules") -> forall st,
      match Py.strip_prefix ns rec with
      | Some t =>
          match Py.strip_prefix "/" t with
          | Some u =>
              if ((1 <=? run compchar u) && at_end (sdrop (run compchar u) u))%bool
              then Some (MState (String.length ns + 1 + run compchar u)
                           (sdrop (run compchar u) u)
                           (<["component" := stake (run compchar u) u]>
                              (<["namespace" := ns]> ∅)))
              else None
          | None => None
          end
      | None => None
      end = Some st ->
      exists comp tail,
        rec = ns +:+ "/" +:+ comp +:+ tail /\ comp <> "" /\
        sall compchar comp = true /\ (tail = "" \/ tail = String newline "") /\
        caps st = <["component" := comp]> (<["namespace" := ns]> ∅)).
    { intros ns Hns st.
      destruct (Py.strip_prefix ns rec) as [t|] eqn:E; [|done].
      destruct (Py.strip_prefix "/" t) as [u|] eqn:Eu; [|done].
      destruct (1 <=? run compchar u) eqn:Hr; [|done]. apply Nat.leb_le in Hr.
      destruct (at_end (sdrop (run compchar u) u)) eqn:He; [|done].
      intros [= <-]. apply strip_prefix_Some in E as ->, Eu as ->.
      exists (stake (run compchar u) u), (sdrop (run compchar u) u).
      pose proof (run_le compchar u).
      rewrite stake_sdrop. repeat split; try done.
      - apply stake_nonempty; lia.
      - by apply sall_stake_run.
      - by apply at_end_inv. }
    match goal with |- context [orelse ?x ?y] =>
      destruct x as [st|] eqn:E1; cbn [orelse];
      [|destruct y as [st|] eqn:E2; [|done]] end.
    + intros [= <-]. destruct (H "rpms" (or_introl eq_refl) st E1)
        as (comp & tail & ? & ? & ? & ? & ?).
      exists "rpms", comp, tail. eauto 10.
    + intros [= <-]. destruct (H "modules" (or_intror eq_refl) st E2)
        as (comp & tail & ? & ? & ? & ? & ?).
      exists "modules", comp, tail. eauto 10.
  - intros (ns & comp & tail & -> & Hns & Hne & Hall & Htail & ->).
    by apply cre_accepts.
Qed.
(** ** Safe statements *)

Create HintDb safe.

Section SafeLemmas.
Context {W : Type} {host : World W}.
Variable J : globals -> Prop.
Variable Q : request -> bool.

Lemma ext_refl (s : state W) : J (glob s) -> ext (W:=W) J Q s s.
Proof.
  intros HJ. split; [done|]. exists []. by rewrite app_nil_r.
Qed.

Lemma ext_trans (s1 s2 s3 : state W) :
  ext (W:=W) J Q s1 s2 -> ext (W:=W) J Q s2 s3 -> ext (W:=W) J Q s1 s3.
Proof.
  intros [_ (t1 & E1 & F1)] [HJ (t2 & E2 & F2)]. split; [done|].
  exists (t1 ++ t2). rewrite E2, E1, app_assoc. split; [done|].
  by rewrite forallb_app, F1, F2.
Qed.

Section Fixed.
Context {R : Type} (V : R -> Prop).

Lemma safe_ret {A} (a : A) : safe (W:=W) J Q V (ret a).
Proof. intros s HJ. split; [by apply ext_refl|done]. Qed.

Lemma safe_return {A} (r : R) : V r -> safe (W:=W) J Q V (return_ (A:=A) r).
Proof.
  intros Hr s HJ. split; [by apply ext_refl|]. intros r' [= <-]. done.
Qed.

Lemma safe_raise {A} : safe (W:=W) J Q V (raise (A:=A)).
Proof. intros s HJ. split; [by apply ext_refl|done]. Qed.

Lemma safe_eval {A} (r : Py.res A) : safe (W:=W) J Q V (eval r).
Proof. destruct r; [apply safe_ret | apply safe_raise]. Qed.

Lemma safe_bind {A B} (m : M W R A) (f : A -> M W R B) :
  safe J Q V m -> (forall a, safe J Q V (f a)) -> safe J Q V (bind m f).
Proof.
  intros Hm Hf s HJ. unfold bind. destruct (Hm s HJ) as [He Hr].
  destruct (m s) as [[a|r|] s1]; cbn in *.
  - destruct (Hf a s1 (proj1 He)) as [He' Hr'].
    split; [by eapply ext_trans|done].
  - split; [done|]. intros r' [= <-]. by apply Hr.
  - by split.
Qed.

Lemma safe_globals : safe (W:=W) J Q V globals_.
Proof. intros s HJ. split; [by apply ext_refl|done]. Qed.

Lemma safe_globals_bind {B} (f : globals -> M W R B) :
  (forall g, J g -> safe J Q V (f g)) -> safe J Q V (bind globals_ f).
Proof. intros Hf s HJ. unfold bind, globals_. by apply Hf. Qed.

Lemma safe_perform (r : request) : Q r = true -> safe (W:=W) J Q V (perform r).
Proof.
  intros Hr s HJ. unfold perform. destruct (respond r (world s)) as [a w].
  split; [|done]. split; [done|]. exists [r]. cbn. by rewrite Hr.
Qed.

Lemma safe_set_sessions (ss : gmap string (session * Z)) :
  (forall g, J g -> J (Globals (c g) (retry g) (dry_run g) ss)) ->
  safe (W:=W) J Q V (set_sessions ss).
Proof.
  intros H s HJ. split; [|done]. split; [by apply H|]. exists []. by rewrite app_nil_r.
Qed.

Lemma safe_same {A} (m m' : M W R A) :
  (forall s, m s = m' s) -> safe J Q V m -> safe J Q V m'.
Proof. intros E Hm s HJ. rewrite <- E. by apply Hm. Qed.

Lemma safe_bind_assoc {A B C} (m : M W R A) (f : A -> M W R B) (g : B -> M W R C) :
  safe J Q V (bind m (fun x => bind (f x) g)) -> safe J Q V (bind (bind m f) g).
Proof.
  apply safe_same. intros s. unfold bind. by destruct (m s) as [[a|r|] s1].
Qed.

(** A request of which every reply has the property [P]. *)
Lemma safe_perform_bind {B} (r : request) (P : reply r -> Prop)
    (f : reply r -> M W R B) :
  (forall w, P (respond r w).1) -> Q r = true ->
  (forall a, P a -> safe J Q V (f a)) ->
  safe J Q V (bind (perform r) f).
Proof.
  intros HP Hr Hf s HJ. unfold bind, perform.
  specialize (HP (world s)). destruct (respond r (world s)) as [a w]. cbn in HP.
  assert (E : ext J Q s (State w (trace s ++ [r]) (glob s))).
  { split; [done|]. exists [r]. cbn. by rewrite Hr. }
  destruct (Hf a HP (State w (trace s ++ [r]) (glob s)) HJ) as [He Hv].
  split; [by eapply ext_trans|done].
Qed.

Lemma safe_call {R'} (V' : R' -> Prop) (body : M W R' R') :
  safe J Q V' body -> safe J Q V (call body).
Proof.
  intros Hb s HJ. unfold call. destruct (Hb s HJ) as [He _].
  destruct (body s) as [[a|r|] s1]; cbn in *; by split.
Qed.

Lemma safe_try {A} (body : M W R A) : safe J Q V body -> safe J Q V (try body).
Proof.
  intros Hb s HJ. unfold try. destruct (Hb s HJ) as [He Hr].
  destruct (body s) as [[a|r|] s1]; cbn in *; split; try done.
  intros r' [= <-]. by apply Hr.
Qed.

Lemma safe_check (m : M W R bool) : safe J Q V m -> safe J Q V (check m).
Proof.
  intros Hm. apply safe_bind; [done|]. intros [|]; [apply safe_ret|apply safe_raise].
Qed.

Lemma safe_force {A} (m : M W R (option A)) : safe J Q V m -> safe J Q V (force m).
Proof.
  intros Hm. apply safe_bind; [done|]. intros [a|]; [apply safe_ret|apply safe_raise].
Qed.

Lemma safe_attempts {A} (n : nat) (body : M W R A) :
  safe J Q V body -> safe J Q V (attempts n body).
Proof.
  intros Hb. induction n as [|n IH]; cbn [attempts]; [apply safe_ret|].
  apply safe_bind; [by apply safe_try|]. intros [a|]; [apply safe_ret|done].
Qed.

Lemma safe_for_each {A} (xs : list A) (body : A -> M W R unit) :
  (forall x, safe J Q V (body x)) -> safe J Q V (for_each xs body).
Proof.
  intros Hb. induction xs as [|x xs IH]; cbn [for_each]; [apply safe_ret|].
  apply safe_bind; [done|]. by intros _.
Qed.

Lemma safe_fold_each {A B} (xs : list A) (body : B -> A -> M W R B) (b : B) :
  (forall b x, safe J Q V (body b x)) -> safe J Q V (fold_each xs body b).
Proof.
  intros Hb. revert b. induction xs as [|x xs IH]; intros b; cbn [fold_each];
    [apply safe_ret|].
  apply safe_bind; [done|]. done.
Qed.

End Fixed.
End SafeLemmas.

(** One step of a proof that a statement is safe: the rule of the
    statement's head, or a case split on what it branches on. *)
Ltac safe_step :=
  lazymatch goal with
  | |- safe ?J ?Q ?V (bind (ret ?a) ?f) =>
      change (safe J Q V (f a)); cbn [fst snd]
  | |- safe _ _ _ (bind (bind _ _) _) => apply safe_bind_assoc
  | |- safe ?J ?Q ?V (bind (eval (Py.Val ?a)) ?f) =>
      change (safe J Q V (f a)); cbn [fst snd]
  | |- safe _ _ _ (bind globals_ _) =>
      let H := fresh "HJ" in apply safe_globals_bind; intros ? H; cbv beta in H
  | |- safe _ _ _ (set_sessions _) => apply safe_set_sessions; first [done | auto]
  | |- safe _ _ _ (bind _ _) => apply safe_bind; [|intros ?]
  | |- safe _ _ _ (ret _) => apply safe_ret
  | |- safe _ _ _ (return_ _) => apply safe_return; first [done | auto]
  | |- safe _ _ _ raise => apply safe_raise
  | |- safe _ _ _ (eval _) => apply safe_eval
  | |- safe _ _ _ globals_ => apply safe_globals
  | |- safe ?J ?Q ?V (perform ?r) =>
      apply (safe_perform J Q V r);
      first [ reflexivity
            | match goal with
              | H : forall r, _ -> Q r = true |- _ => apply H; reflexivity
              end
            | auto ]
  | |- safe _ _ _ (call _) => apply (safe_call _ _ _ any)
  | |- safe _ _ _ (try _) => apply safe_try
  | |- safe _ _ _ (check _) => apply safe_check
  | |- safe _ _ _ (force _) => apply safe_force
  | |- safe _ _ _ (attempts _ _) => apply safe_attempts
  | |- safe _ _ _ (for_each _ _) => apply safe_for_each; intros ?
  | |- safe _ _ _ (fold_each _ _ _) => apply safe_fold_each; intros ? ?
  | |- safe _ _ _ (match ?x with _ => _ end) => destruct x
  | |- safe _ _ _ (let _ := _ in _) => cbv zeta
  end.

Ltac safe_auto := repeat (cbv beta; first [safe_step | solve [eauto with safe]]).
(** ** Outcomes *)

Section WpLemmas.
Context {W : Type} {host : World W}.

Lemma wp_mono {R A} (m : M W R A) (Qn Qn' : A -> state W -> Prop)
    (Qr Qr' : R -> state W -> Prop) (Qe Qe' : state W -> Prop) (s : state W) :
  wp m Qn Qr Qe s ->
  (forall a s', Qn a s' -> Qn' a s') ->
  (forall r s', Qr r s' -> Qr' r s') ->
  (forall s', Qe s' -> Qe' s') ->
  wp m Qn' Qr' Qe' s.
Proof.
  unfold wp. intros H Hn Hr He. destruct (m s).1; auto.
Qed.

Lemma wp_bind {R A B} (m : M W R A) (f : A -> M W R B)
    (Qn : B -> state W -> Prop) (Qr : R -> state W -> Prop)
    (Qe : state W -> Prop) (s : state W) :
  wp m (fun a s' => wp (f a) Qn Qr Qe s') Qr Qe s -> wp (bind m f) Qn Qr Qe s.
Proof.
  unfold wp, bind. by destruct (m s) as [[a|r|] s1].
Qed.

Lemma wp_call {R A} (body : M W A A)
    (Qn : A -> state W -> Prop) (Qr : R -> state W -> Prop)
    (Qe : state W -> Prop) (s : state W) :
  wp (R:=A) body Qn Qn Qe s -> wp (call (R':=R) body) Qn Qr Qe s.
Proof.
  unfold wp, call. by destruct (body s) as [[a|r|] s1].
Qed.

Lemma wp_try {R A} (body : M W R A)
    (Qn : option A -> state W -> Prop) (Qr : R -> state W -> Prop)
    (Qe : state W -> Prop) (s : state W) :
  wp body (fun a => Qn (Some a)) Qr (Qn None) s -> wp (try body) Qn Qr Qe s.
Proof.
  unfold wp, try. by destruct (body s) as [[a|r|] s1].
Qed.

Lemma wp_safe {R A} (J : globals -> Prop) (Q : request -> bool) (V : R -> Prop)
    (m : M W R A) (s : state W) :
  safe J Q V m -> J (glob s) ->
  wp m (fun _ s' => ext J Q s s') (fun r s' => V r /\ ext J Q s s') (ext J Q s) s.
Proof.
  intros Hm HJ. destruct (Hm s HJ) as [He Hr]. unfold wp.
  destruct (m s) as [[a|r|] s1]; cbn in *; auto.
Qed.

End WpLemmas.

Section WpSafe.
Context {W : Type} {host : World W}.

(** Running a safe statement first. *)
Lemma wp_bind_safe {R A B} (J : globals -> Prop) (Q : request -> bool)
    (V : R -> Prop) (m : M W R A) (f : A -> M W R B)
    (Qn : B -> state W -> Prop) (Qr : R -> state W -> Prop)
    (Qe : state W -> Prop) (s : state W) :
  safe J Q V m -> J (glob s) ->
  (forall a s', ext J Q s s' -> wp (f a) Qn Qr Qe s') ->
  (forall r s', V r -> ext J Q s s' -> Qr r s') ->
  (forall s', ext J Q s s' -> Qe s') ->
  wp (bind m f) Qn Qr Qe s.
Proof.
  intros Hm HJ Hn Hr He. apply wp_bind.
  eapply wp_mono; [by apply (wp_safe J Q V)|..]; cbn; auto.
  intros r s' [? ?]. auto.
Qed.

(** The same, keeping only the invariant. *)
Lemma wp_bind_inv {R A B} (J : globals -> Prop) (Q : request -> bool)
    (V : R -> Prop) (m : M W R A) (f : A -> M W R B)
    (Qn : B -> state W -> Prop) (Qr : R -> state W -> Prop)
    (Qe : state W -> Prop) (s : state W) :
  safe J Q V m -> J (glob s) ->
  (forall a s', J (glob s') -> wp (f a) Qn Qr Qe s') ->
  (forall r s', V r -> J (glob s') -> Qr r s') ->
  (forall s', J (glob s') -> Qe s') ->
  wp (bind m f) Qn Qr Qe s.
Proof.
  intros Hm HJ Hn Hr He.
  apply (wp_bind_safe J Q V); [done..| | |].
  - intros a s' [? _]. auto.
  - intros r s' ? [? _]. auto.
  - intros s' [? _]. auto.
Qed.

Lemma wp_return {R A} (r : R) (Qn : A -> state W -> Prop)
    (Qr : R -> state W -> Prop) (Qe : state W -> Prop) (s : state W) :
  Qr r s -> wp (return_ r) Qn Qr Qe s.
Proof. done. Qed.

Lemma wp_ret {R A} (a : A) (Qn : A -> state W -> Prop)
    (Qr : R -> state W -> Prop) (Qe : state W -> Prop) (s : state W) :
  Qn a s -> wp (ret a) Qn Qr Qe s.
Proof. done. Qed.

Lemma wp_raise {R A} (Qn : A -> state W -> Prop)
    (Qr : R -> state W -> Prop) (Qe : state W -> Prop) (s : state W) :
  Qe s -> wp raise Qn Qr Qe s.
Proof. done. Qed.

(** Running a statement of which the outcome is known. *)
Lemma wp_seq {R A B} (m : M W R A) (f : A -> M W R B)
    (P : A -> state W -> Prop) (Qn : B -> state W -> Prop)
    (Qr : R -> state W -> Prop) (Qe : state W -> Prop) (s : state W) :
  wp m P Qr Qe s ->
  (forall a s', P a s' -> wp (f a) Qn Qr Qe s') ->
  wp (bind m f) Qn Qr Qe s.
Proof.
  intros Hm Hf. apply wp_bind. eapply wp_mono; [exact Hm|..]; auto.
Qed.

Lemma wp_true {R A} (m : M W R A) (s : state W) :
  wp m (fun _ _ => True) (fun _ _ => True) (fun _ => True) s.
Proof. unfold wp. by destruct (m s).1. Qed.

Lemma wp_conj {R A} (m : M W R A) (Qn Qn' : A -> state W -> Prop)
    (Qr Qr' : R -> state W -> Prop) (Qe Qe' : state W -> Prop) (s : state W) :
  wp m Qn Qr Qe s -> wp m Qn' Qr' Qe' s ->
  wp m (fun a s' => Qn a s' /\ Qn' a s') (fun r s' => Qr r s' /\ Qr' r s')
    (fun s' => Qe s' /\ Qe' s') s.
Proof. unfold wp. by destruct (m s).1. Qed.

Lemma wp_globals {R} (Qn : globals -> state W -> Prop)
    (Qr : R -> state W -> Prop) (Qe : state W -> Prop) (s : state W) :
  Qn (glob s) s -> wp globals_ Qn Qr Qe s.
Proof. done. Qed.

Lemma wp_eval {R A} (x : Py.res A) (Qn : A -> state W -> Prop)
    (Qr : R -> state W -> Prop) (Qe : state W -> Prop) (s : state W) :
  match x with Py.Val a => Qn a s | Py.Exc => Qe s end -> wp (eval x) Qn Qr Qe s.
Proof. by destruct x. Qed.

Lemma wp_perform {R} (r : request) (Qn : reply r -> state W -> Prop)
    (Qr : R -> state W -> Prop) (Qe : state W -> Prop) (s : state W) :
  Qn (respond r (world s)).1
     (State (respond r (world s)).2 (trace s ++ [r]) (glob s)) ->
  wp (perform r) Qn Qr Qe s.
Proof. unfold wp, perform. by destruct (respond r (world s)). Qed.

Lemma wp_set_sessions {R} (ss : gmap string (session * Z))
    (Qn : unit -> state W -> Prop) (Qr : R -> state W -> Prop)
    (Qe : state W -> Prop) (s : state W) :
  Qn tt (State (world s) (trace s)
           (Globals (c (glob s)) (retry (glob s)) (dry_run (glob s)) ss)) ->
  wp (set_sessions ss) Qn Qr Qe s.
Proof. done. Qed.

End WpSafe.

(** One step of running a statement. *)
Ltac wp_step :=
  lazymatch goal with
  | |- wp (bind _ _) _ _ _ _ => apply wp_bind
  | |- wp (ret _) _ _ _ _ => apply wp_ret
  | |- wp (return_ _) _ _ _ _ => apply wp_return
  | |- wp raise _ _ _ _ => apply wp_raise
  | |- wp globals_ _ _ _ _ => apply wp_globals
  | |- wp (eval _) _ _ _ _ => apply wp_eval
  | |- wp (call _) _ _ _ _ => apply wp_call
  | |- wp (try _) _ _ _ _ => apply wp_try
  | |- wp (perform ?r) ?Qn ?Qr ?Qe ?s => apply (wp_perform r Qn Qr Qe s)
  | |- wp (set_sessions _) _ _ _ _ => apply wp_set_sessions
  | |- wp (fold_each _ _ _) _ _ _ _ => cbn [fold_each]
  | |- wp (for_each _ _) _ _ _ _ => cbn [for_each]
  | |- wp (check _) _ _ _ _ => unfold check at 1
  | |- wp (force _) _ _ _ _ => unfold force at 1
  | |- wp main_ _ _ _ _ => unfold main_ at 1
  | |- wp comps_ _ _ _ _ => unfold comps_ at 1
  | |- wp (let _ := _ in _) _ _ _ _ => cbv zeta
  | |- wp (match ?x with _ => _ end) _ _ _ _ =>
      let E := fresh "E" in destruct x eqn:E
  | |- match ?x with _ => _ end =>
      let E := fresh "E" in destruct x eqn:E
  end.

(** Running a statement by what is known of it. *)
Ltac wp_use H :=
  try (eapply wp_mono;
         [apply H | cbv beta; intros ? ? ?
         | first [intros; exact I | by intros] | first [intros; exact I | by intros]]).

Ltac wp_auto := repeat (cbv beta; cbn [world trace glob]; wp_step).

(** Running a statement of which nothing is needed. *)
Ltac wp_skip :=
  try (eapply wp_mono;
         [apply wp_true | cbv beta; intros ? ? _ | intros; exact I | intros; exact I]).
(** ** [load_config] *)

Section LoadFacts.
Context {W : Type} {host : World W}.

(** The validation of a document touches no global, asks only whether a
    module can be imported, and gives up only with [None]. *)
Lemma load_main_safe (J : globals -> Prop) (Q : request -> bool)
    (V : option config -> Prop) (y : yaml) :
  (forall n, Q (Import n) = true) -> V None ->
  safe (W:=W) J Q V (load_main y).
Proof.
  intros HQ HV.
  unfold load_main, load_endpoint, load_mbs, load_trigger, load_build, load_git,
    load_control, load_exclude, load_defaults, load_default, load_default_sub,
    str_of, bool_of, str_opt, has, get.
  safe_auto.
Qed.

Lemma load_components_safe (J : globals -> Prop) (Q : request -> bool)
    (V : option config -> Prop) (n : main_cfg) (y : yaml) :
  safe (W:=W) J Q V (load_components n y).
Proof.
  unfold load_components, load_comps, load_comp, load_sub, override, has, get.
  safe_auto.
Qed.

(** *** What is validated *)

Lemma load_mbs_validated (mbs : yaml) (s : state W) :
  wp (load_mbs mbs) (fun n _ => mbs_validated n) (fun _ _ => True) (fun _ => True) s.
Proof.
  unfold load_mbs, has, get. wp_auto.
  all: try exact I.
  all: simplify_eq; unfold mbs_validated; rewrite ?String.eqb_eq in *.
  all: split; [by simplify_map_eq|eexists; split; [by simplify_map_eq|]].
  - right. repeat split; by simplify_map_eq.
  - by left.
Qed.

Lemma load_destination_validated (cnf : yaml) (s : state W) :
  wp (load_endpoint cnf "destination") (fun e _ => mbs_validated (ep_mbs e))
    (fun _ _ => True) (fun _ => True) s.
Proof.
  unfold load_endpoint, str_of, has, get.
  change (String.eqb "destination" "destination") with true.
  wp_auto. all: try exact I.
  all: wp_use load_mbs_validated; wp_auto; done.
Qed.

Lemma load_source_validated (cnf : yaml) (s : state W) :
  wp (load_endpoint cnf "source") (fun e _ => ep_mbs e = ∅)
    (fun _ _ => True) (fun _ => True) s.
Proof.
  unfold load_endpoint, str_of, has, get.
  change (String.eqb "source" "destination") with false.
  wp_auto. all: done.
Qed.

Lemma load_build_validated (cnf : yaml) (s : state W) :
  wp (load_build cnf) (fun b _ => Py.contains ":" (build_platform b) = true)
    (fun _ _ => True) (fun _ => True) s.
Proof.
  unfold load_build, str_of, has, get.
  wp_auto. all: try exact I.
  all: by apply negb_false_iff.
Qed.

Lemma load_default_sub_adds (df : yaml) (rpms : gmap string string)
    (n : gmap string yaml) (dkk : string) (s : state W) :
  wp (load_default_sub df rpms n dkk)
    (fun n' _ => is_Some (n' !! dkk) /\ forall k, is_Some (n !! k) -> is_Some (n' !! k))
    (fun _ _ => True) (fun _ => True) s.
Proof.
  unfold load_default_sub, has, get.
  wp_auto. all: try exact I.
  all: split; [by simplify_map_eq|].
  all: intros k Hk; destruct (decide (k = dkk)); by simplify_map_eq.
Qed.

Lemma load_defaults_validated (cnf : yaml) (s : state W) :
  wp (load_defaults cnf)
    (fun d _ => is_Some (defaults_modules_rpms d !! "source") /\
                is_Some (defaults_modules_rpms d !! "destination"))
    (fun _ _ => True) (fun _ => True) s.
Proof.
  unfold load_defaults, has, get.
  wp_auto. all: try exact I.
  do 3 (wp_skip; wp_auto).
  wp_use load_default_sub_adds. wp_auto.
  wp_use load_default_sub_adds. wp_auto.
  cbn. naive_solver.
Qed.

Lemma load_main_validated (y : yaml) (s : state W) :
  wp (load_main y) (fun n _ => validated n) (fun _ _ => True) (fun _ => True) s.
Proof.
  unfold load_main, has, get.
  wp_auto. all: try exact I.
  wp_use load_source_validated. wp_auto.
  wp_use load_destination_validated. wp_auto.
  wp_skip. wp_auto.
  wp_use load_build_validated. wp_auto.
  wp_skip. wp_auto.
  wp_skip. wp_auto.
  wp_use load_defaults_validated. wp_auto.
  unfold validated. cbn. naive_solver.
Qed.

(** One statement of [load_config] before the assignment to [c]. *)
Ltac load_step J Q V :=
  first
    [ apply wp_return; auto
    | apply (wp_bind_inv J Q V);
        [first [apply load_main_safe; done | apply load_components_safe
               | solve [safe_auto]]
        |assumption| intros ? ? ? |assumption..]
    | match goal with
      | |- wp (match ?x with _ => _ end) _ _ _ _ => destruct x
      | |- wp (let _ := _ in _) _ _ _ _ => cbv zeta
      end ].

(** X1: [load_config] replaces the configuration [c] only when the whole
    document was loaded, and then by a configuration with both its
    [main] and [comps] parts, which is also what it returns; when it
    returns [None] or raises, every global is as it was.  The retry
    count, the dry-run flag and the sessions are never touched. *)
Theorem load_config_atomic {R} (crepo : string) (s : state W) :
  match load_config (R:=R) crepo s with
  | (Next (Some cfg), s') =>
      (exists n nc, cfg = Config (Some n) (Some nc)) /\
      glob s' = Globals cfg (retry (glob s)) (dry_run (glob s)) (sessions (glob s))
  | (Next None, s') | (Raise, s') => glob s' = glob s
  | (Return _, _) => False
  end.
Proof.
  set (J := fun g : globals => g = glob s).
  set (Q := fun _ : request => true).
  set (V := fun r : option config => r = None).
  set (Qn := fun (r : option config) (s' : state W) =>
          match r with
          | Some cfg =>
              (exists n nc, cfg = Config (Some n) (Some nc)) /\
              glob s' = Globals cfg (retry (glob s)) (dry_run (glob s)) (sessions (glob s))
          | None => glob s' = glob s
          end).
  assert (H : wp (load_config (R:=R) crepo) Qn (fun _ _ => False)
                (fun s' => glob s' = glob s) s).
  { unfold load_config. apply wp_call.
    assert (Hr : forall (r : option config) (s' : state W), V r -> J (glob s') -> Qn r s')
      by (by intros r s' -> ?).
    assert (He : forall s' : state W, J (glob s') -> glob s' = glob s) by done.
    assert (HJ : J (glob s)) by done.
    revert HJ. generalize s at 1 3. intros s0 HJ.
    do 12 (try load_step J Q V; cbv beta).
    unfold wp, bind, set_c, ret, Qn; cbn.
    match goal with H : J (glob _) |- _ => rewrite H end. eauto. }
  revert H. unfold wp. by destruct (load_config crepo s) as [[[cfg|]|r|] s'].
Qed.

(** X11: the entries of [trigger] are not required.  A [trigger] block
    without [rpms] (or without [modules]) passes: the missing entry is
    left out of the configuration, and [load_config] goes on instead of
    returning [None]. *)
Theorem load_trigger_lenient (cnf t : yaml) (k : string) (s : state W) :
  Yaml.has "trigger" cnf = Val true ->
  Yaml.get "trigger" cnf = Val t ->
  k = "rpms" \/ k = "modules" ->
  Yaml.has k t = Val false ->
  match load_trigger cnf s with
  | (Next n, s') => n !! k = None /\ s' = s
  | (Return _, _) => False
  | (Raise, s') => s' = s
  end.
Proof.
  intros Hh Hg Hk Hn.
  assert (H : wp (load_trigger cnf) (fun n s' => n !! k = None /\ s' = s)
                (fun _ _ => False) (fun s' => s' = s) s).
  { unfold load_trigger, str_opt, has, get. wp_step. wp_step. rewrite Hh.
    cbn [negb]. wp_step. wp_step. rewrite Hg. cbn [fold_each].
    destruct Hk as [-> | ->].
    - wp_step. wp_step. wp_step. rewrite Hn. wp_auto. all: try done.
      all: split; [by simplify_map_eq|done].
    - wp_auto. all: try done. all: simplify_eq. }
  revert H. unfold wp. by destruct (load_trigger cnf s) as [[n|r|] s'].
Qed.

(** X10: a configuration [load_config] returns has the entries the rest
    of the module subscripts without a check: the MBS [api_url] and
    [auth_method] of the destination, the method being [kerberos] or
    [oidc], with the four OIDC entries for [oidc]; no MBS entries for
    the source; a build platform with a colon; and both templates of
    module sub-components. *)
Theorem load_config_validated {R} (crepo : string) (s : state W) :
  match load_config (R:=R) crepo s with
  | (Next (Some cfg), _) => exists n, cfg_main cfg = Some n /\ validated n
  | _ => True
  end.
Proof.
  set (J := fun _ : globals => True).
  set (Q := fun _ : request => true).
  set (V := fun r : option config => r = None).
  set (P := fun (r : option config) (_ : state W) =>
              if r is Some cfg then exists n, cfg_main cfg = Some n /\ validated n
              else True).
  assert (H : wp (load_config (R:=R) crepo) P (fun _ _ => True) (fun _ => True) s).
  { unfold load_config. apply wp_call.
    assert (Hr : forall (r : option config) (s' : state W), V r -> J (glob s') -> P r s')
      by (by intros r s' -> ?).
    assert (He : forall s' : state W, J (glob s') -> True) by done.
    assert (HJ : J (glob s)) by done.
    revert HJ. generalize s. intros s0 HJ.
    do 12 (try (lazymatch goal with
                | |- wp (bind (load_main _) _) _ _ _ _ => fail
                | |- _ => load_step J Q V
                end); cbv beta).
    apply wp_bind.
    lazymatch goal with
    | |- wp (load_main ?y) _ _ _ ?st =>
        eapply wp_mono;
          [exact (wp_conj _ _ _ _ _ _ _ _ (load_main_validated y st)
                    (wp_safe J Q V _ st
                       (load_main_safe J Q V y (fun _ => eq_refl) eq_refl) I))
          |cbv beta..]
    end.
    - intros n sn [Hn [HJn _]].
      apply (wp_bind_inv J Q V); [apply load_components_safe|done| |done..].
      intros nc sc HJc. unfold wp, set_c, ret, bind, P. cbn. eauto.
    - by intros r sn [_ [-> _]].
    - done. }
  revert H. unfold wp. by destruct (load_config crepo s) as [[[cfg|]|r|] s'].
Qed.

End LoadFacts.

Lemma load_trigger_lenient_witness :
  match load_trigger ex_document dry_start with
  | (Next n, s') => n !! "rpms" = None /\ s' = dry_start
  | (Return _, _) => False
  | (Raise, s') => s' = dry_start
  end.
Proof.
  apply (load_trigger_lenient ex_document (YMap [("modules", YStr "mtag")]) "rpms"
           dry_start).
  - reflexivity.
  - reflexivity.
  - by left.
  - reflexivity.
Defined.
(** ** Dry runs *)

(** A proof that a statement is harmless in a dry run. *)
Ltac dry_auto :=
  repeat (cbv beta;
          first [ progress (match goal with
                            | H : dry ?g |- context [dry_run ?g] =>
                                rewrite H; cbn [negb]
                            end)
                | safe_step
                | solve [eauto with safe] ]).

(** What asks the build systems for builds and works on a clone touches
    nothing outside: it is safe for every set of requests that has the
    quiet ones. *)
Section Quiet.
Context {W : Type} {host : World W}.
Variable J : globals -> Prop.
Variable Q : request -> bool.
Hypothesis HJ : forall g ss, J g -> J (Globals (c g) (retry g) (dry_run g) ss).
Hypothesis HQ : forall r, quiet r = true -> Q r = true.

Lemma free_branch_quiet {R} (V : R -> Prop) (n : nat) (repo : string) :
  safe (W:=W) J Q V (free_branch n repo).
Proof.
  induction n as [|n IH]; cbn [free_branch]; unfold git; safe_auto.
Qed.

Lemma known_ref_quiet {R} (V : R -> Prop) (brefs : list (option string)) (repo : string) :
  safe (W:=W) J Q V (known_ref brefs repo).
Proof.
  induction brefs as [|b brefs IH]; cbn [known_ref]; unfold git; safe_auto.
Qed.

Lemma get_buildsys_quiet {R} (V : R -> Prop) (which : string) :
  safe (W:=W) J Q V (get_buildsys which).
Proof. unfold get_buildsys, main_. safe_auto. Qed.

Hint Resolve free_branch_quiet known_ref_quiet get_buildsys_quiet : safe.

Lemma get_build_info_quiet {R} (V : R -> Prop) (nvr : string) :
  safe (W:=W) J Q V (get_build_info nvr).
Proof. unfold get_build_info. safe_auto. Qed.

Hint Resolve get_build_info_quiet : safe.

Lemma get_build_quiet {R} (V : R -> Prop) (comp ns : string) :
  safe (W:=W) J Q V (get_build comp ns).
Proof. unfold get_build, latest_for, main_. safe_auto. Qed.

Lemma clone_destination_repo_quiet {R} (V : R -> Prop) (ns comp : string)
    (dscm : scm) (dirname : string) :
  safe (W:=W) J Q V (clone_destination_repo ns comp dscm dirname).
Proof. unfold clone_destination_repo. safe_auto. Qed.

Lemma fetch_upstream_repo_quiet {R} (V : R -> Prop) (ns comp : string)
    (sscm : scm) (repo : string) :
  safe (W:=W) J Q V (fetch_upstream_repo ns comp sscm repo).
Proof. unfold fetch_upstream_repo, git. safe_auto. Qed.

Lemma configure_repo_quiet {R} (V : R -> Prop) (ns comp repo : string) :
  safe (W:=W) J Q V (configure_repo ns comp repo).
Proof. unfold configure_repo, git, main_. safe_auto. Qed.

Lemma sync_repo_merge_quiet {R} (V : R -> Prop) (ns comp repo : string)
    (bscm sscm dscm : scm) :
  safe (W:=W) J Q V (sync_repo_merge ns comp repo bscm sscm dscm).
Proof. unfold sync_repo_merge, git, main_. safe_auto. Qed.

Lemma sync_repo_pull_quiet {R} (V : R -> Prop) (ns comp repo : string) (bscm : scm) :
  safe (W:=W) J Q V (sync_repo_pull ns comp repo bscm).
Proof. unfold sync_repo_pull, git. safe_auto. Qed.

End Quiet.

#[export] Hint Resolve free_branch_quiet known_ref_quiet get_buildsys_quiet
  get_build_info_quiet get_build_quiet clone_destination_repo_quiet
  fetch_upstream_repo_quiet configure_repo_quiet sync_repo_merge_quiet
  sync_repo_pull_quiet : safe.

Lemma dry_sessions (g : globals) (ss : gmap string (session * Z)) :
  dry g -> dry (Globals (c g) (retry g) (dry_run g) ss).
Proof. done. Qed.

Lemma quiet_harmless (r : request) : quiet r = true -> harmless r = true.
Proof. unfold quiet. by intros [? _]%andb_true_iff. Qed.

Lemma quiet_pushes (r : request) : quiet r = true -> negb (pushes r) = true.
Proof. unfold quiet. by intros [_ ?]%andb_true_iff. Qed.

#[export] Hint Resolve dry_sessions quiet_harmless quiet_pushes : safe.

Section DryFacts.
Context {W : Type} {host : World W}.

Lemma repo_push_dry {R} (V : R -> Prop) (ns comp repo : string) (dscm : scm) :
  safe (W:=W) dry harmless V (repo_push ns comp repo dscm).
Proof. unfold repo_push, git. dry_auto. Qed.

Hint Resolve repo_push_dry : safe.

Lemma sync_cache_dry {R} (V : R -> Prop) (comp : string)
    (sources : list source_entry) (ns : string) (scacheurl : option string) :
  safe (W:=W) dry harmless V (sync_cache comp sources ns scacheurl).
Proof. unfold sync_cache, comps_. dry_auto. Qed.

Hint Resolve sync_cache_dry : safe.

Lemma sync_repo_with_dry
    (expand : string -> option string -> option string -> M W (option string) bool)
    {R} (V : R -> Prop) (comp ns : string)
    (nvr gitdir cmodule scmurl bcache : option string) :
  (forall V' a b d, safe dry harmless V' (expand a b d)) ->
  safe (W:=W) dry harmless V
    (sync_repo_with expand comp ns nvr gitdir cmodule scmurl bcache).
Proof.
  intros Hx.
  unfold sync_repo_with, sub_urls, comp_urls, add_ref, read_sources, comps_, git.
  dry_auto.
Qed.

Lemma sync_rpm_dry {R} (V : R -> Prop) (comp ns : string)
    (nvr gitdir cmodule scmurl bcache : option string) :
  safe (W:=W) dry harmless V (sync_rpm comp ns nvr gitdir cmodule scmurl bcache).
Proof. apply sync_repo_with_dry. intros. apply safe_raise. Qed.

Hint Resolve sync_rpm_dry : safe.



End DryFacts.

Section DryRun.
Context {W : Type} {host : World W}.



End DryRun.



(** *** The entry points *)

Section DryEntry.
Context {W : Type} {host : World W}.






End DryEntry.

(** ** Guards *)

Section Guards.
Context {W : Type} {host : World W}.

(** X4: a component excluded from the sync in its namespace is left
    alone: [sync_repo], [sync_cache] and [build_comp] return [None] at
    once, in the state they were called in. *)
Theorem excluded_untouched (comp ns : string) (m : main_cfg) (ex : gset string)
    (nvr gitdir cmodule scmurl bcache ref : option string)
    (sources : list source_entry) (s : state W) :
  cfg_main (c (glob s)) = Some m ->
  exclude m ns = Val ex ->
  comp ∈ ex ->
  sync_repo (R:=unit) comp ns nvr gitdir cmodule scmurl bcache s = (Next None, s) /\
  sync_cache (R:=unit) comp sources ns bcache s = (Next None, s) /\
  build_comp (R:=unit) comp ref ns s = (Next None, s).
Proof.
  intros Hm Hex Hin.
  unfold sync_repo, sync_repo_with, sync_cache, build_comp, call, bind, globals_.
  cbn. rewrite Hm, Hex. cbn. by rewrite bool_decide_eq_true_2.
Qed.

End Guards.

Lemma excluded_untouched_witness :
  sync_repo (R:=unit) "foo" "rpms" None None None None None ex_state = (Next None, ex_state) /\
  sync_cache (R:=unit) "foo" [] "rpms" None ex_state = (Next None, ex_state) /\
  build_comp (R:=unit) "foo" None "rpms" ex_state = (Next None, ex_state).
Proof.
  apply (excluded_untouched "foo" "rpms" ex_main {[ "foo" ]}).
  - reflexivity.
  - reflexivity.
  - by apply elem_of_singleton.
Defined.

Section Retries.
Context {W : Type} {host : World W}.

(** X5: the retry count is the number of attempts, not of attempts after
    a first one.  After [retries(0)] nothing is attempted:
    [clone_destination_repo] and [repo_push] return [None] without a
    call to git, and [load_config] returns [None] having only made its
    temporary directory. *)
Theorem no_retries_no_attempt (ns comp repo dirname crepo : string) (dscm : scm)
    (s : state W) :
  let s0 := (retries (R:=unit) (Some 0) s).2 in
  clone_destination_repo (R:=unit) ns comp dscm dirname s0 = (Next None, s0) /\
  repo_push (R:=unit) ns comp repo dscm s0 = (Next None, s0) /\
  (load_config (R:=unit) crepo s0).1 = Next None /\
  trace (load_config (R:=unit) crepo s0).2
    = trace s ++ [TemporaryDirectory "distrobaker-"].
Proof.
  cbn. repeat split.
  unfold load_config, call, bind, perform. cbn.
  by destruct (respond _ _).
  unfold load_config, call, bind, perform. cbn.
  by destruct (respond _ _).
Qed.

End Retries.
(** ** Retries *)

Section Bounded.
Context {W : Type} {host : World W}.






End Bounded.
(** ** Build system sessions *)

Section Sessions.
Context {W : Type} {host : World W}.

(** What [get_buildsys] ends with. *)
Lemma get_buildsys_outcome {R} (which : string) (s : state W) :
  wp (get_buildsys (R:=R) which)
    (fun r s' =>
       match r with
       | Some b =>
           (exists t, sessions (glob s') !! which = Some (b, t)) /\
           (forall k, k <> which ->
              sessions (glob s') !! k = sessions (glob s) !! k) /\
           c (glob s') = c (glob s) /\ retry (glob s') = retry (glob s) /\
           dry_run (glob s') = dry_run (glob s)
       | None => glob s' = glob s
       end)
    (fun _ _ => False) (fun _ => False) s.
Proof.
  unfold get_buildsys. wp_auto.
  all: cbn [glob sessions c retry dry_run] in *.
  all: try done.
  all: try (simplify_map_eq; done).
  all: try (repeat split; eauto; intros; by simplify_map_eq).
Qed.

(** X6: [get_buildsys] never raises.  The session it returns is the one
    it keeps for [which] from then on, the sessions kept under other
    names stay as they are, and nothing else of the globals changes;
    when it returns [None], a session that was kept before, timed out or
    not, is still the one kept. *)
Theorem get_buildsys_keeps (which : string) (s : state W) :
  match get_buildsys (R:=unit) which s with
  | (Next (Some b), s') =>
      (exists t, sessions (glob s') !! which = Some (b, t)) /\
      (forall k, k <> which -> sessions (glob s') !! k = sessions (glob s) !! k) /\
      c (glob s') = c (glob s) /\ retry (glob s') = retry (glob s) /\
      dry_run (glob s') = dry_run (glob s)
  | (Next None, s') => glob s' = glob s
  | (Return _, _) | (Raise, _) => False
  end.
Proof.
  generalize (get_buildsys_outcome (R:=unit) which s).
  unfold wp. by destruct (get_buildsys which s) as [[[b|]|r|] s'].
Qed.

(** X7: a session kept for [which] that is at most 3550 seconds old is
    used again: [get_buildsys] only reads the clock, and returns it. *)
Theorem get_buildsys_reuse (which : string) (m : main_cfg) (b : session)
    (start : Z) (s : state W) :
  cfg_main (c (glob s)) = Some m ->
  which = "source" \/ which = "destination" ->
  sessions (glob s) !! which = Some (b, start) ->
  (0 <= (respond Now (world s)).1 - start <= 3550)%Z ->
  get_buildsys (R:=unit) which s
    = (Next (Some b), State (respond Now (world s)).2 (trace s ++ [Now]) (glob s)).
Proof.
  intros Hm Hw Hs Hage.
  assert (Hw' : negb (String.eqb which "source" || String.eqb which "destination") = false)
    by (by destruct Hw as [-> | ->]).
  assert (Ht : timed_out (respond Now (world s)).1 start = false).
  { unfold timed_out. cbv zeta.
    rewrite Z.mod_small, Z.div_small by lia.
    apply orb_false_intro; apply Z.ltb_ge; lia. }
  unfold get_buildsys, call, bind, globals_, perform, ret, return_. cbn.
  rewrite Hm, Hw', Hs. cbn.
  destruct (respond Now (world s)) as [now w] eqn:E. cbn in *.
  rewrite Ht. cbn. by rewrite Hs.
Qed.


End Sessions.

Lemma get_buildsys_reuse_witness :
  get_buildsys (R:=unit) "source" ex_kept
    = (Next (Some 7%nat),
       State (respond Now (world ex_kept)).2 (trace ex_kept ++ [Now]) (glob ex_kept)).
Proof.
  apply (get_buildsys_reuse "source" ex_main 7%nat 0%Z ex_kept).
  - reflexivity.
  - left. reflexivity.
  - reflexivity.
  - cbn. lia.
Defined.

(** ** Module components *)

Lemma always_sessions (g : globals) (ss : gmap string (session * Z)) :
  always g -> always (Globals (c g) (retry g) (dry_run g) ss).
Proof. done. Qed.

Lemma quiet_no_push (r : request) : quiet r = true -> no_push r = true.
Proof. apply quiet_pushes. Qed.

#[export] Hint Resolve always_sessions quiet_no_push : safe.

Section NoPush.
Context {W : Type} {host : World W}.

Lemma sync_cache_no_push {R} (V : R -> Prop) (comp : string)
    (sources : list source_entry) (ns : string) (scacheurl : option string) :
  safe (W:=W) always no_push V (sync_cache comp sources ns scacheurl).
Proof. unfold sync_cache, comps_. safe_auto. Qed.

Hint Resolve sync_cache_no_push : safe.

(** In a directory it was given, [sync_repo] pushes nothing. *)
Lemma sync_rpm_no_push {R} (V : R -> Prop) (comp ns d : string)
    (nvr cmodule scmurl bcache : option string) :
  Py.truthy d = true ->
  safe (W:=W) always no_push V (sync_rpm comp ns nvr (Some d) cmodule scmurl bcache).
Proof.
  intros Hd.
  unfold sync_rpm, sync_repo_with, sub_urls, comp_urls, add_ref, read_sources,
    comps_, git.
  cbn [truthy_opt]. rewrite Hd.
  safe_auto.
Qed.

Hypothesis named : forall p w, Py.truthy (respond (TemporaryDirectory p) w).1 = true.

Lemma sync_module_rpm_no_push (V : bool -> Prop) (comp : string)
    (done : list (string * string * string)) (mc : string * rpm_component) :
  V false ->
  safe (W:=W) always no_push V (sync_module_rpm comp done mc).
Proof.
  intros HV. unfold sync_module_rpm. cbv zeta.
  lazymatch goal with
  | |- safe ?J ?Q ?V (bind (perform ?r) ?f) =>
      apply (safe_perform_bind J Q V r (fun d : string => Py.truthy d = true) f);
        [apply named|done|]
  end.
  intros d Hd. safe_step; [by apply sync_rpm_no_push|]. safe_auto.
Qed.

(** The loop over the module components returns in its first round. *)
Lemma module_loop_returns (comp : string) (mc : string * module_component)
    (l : list (string * module_component)) (k : unit -> M W bool unit)
    (s : state W) :
  let r := TemporaryDirectory
             ("mcrepo-" +:+ comp +:+ "-" +:+ "modules" +:+ "-" +:+ mc.1 +:+ "-") in
  bind (for_each (mc :: l) (sync_module_module comp)) k s
    = (Return true, State (respond r (world s)).2 (trace s ++ [r]) (glob s)).
Proof.
  cbn [for_each]. unfold bind, sync_module_module, bind, perform, return_.
  by destruct (respond _ (world s)).
Qed.

(** X8: a module with a module component is reported as synchronized
    without any of its repositories being pushed: when the module
    document lists a module component, [sync_module_components] runs no
    [git push] in its loops, and once the RPM components are
    synchronized it returns [True].  Temporary directories are taken to
    have a name. *)
Theorem module_component_never_pushed (comp : string) (mmd : modulemd) (s : state W) :
  module_components mmd <> [] ->
  let r := sync_components comp mmd s in
  (exists t, trace r.2 = trace s ++ t /\ forallb no_push t = true) /\
  (forall gitdirs s1,
     fold_each (rpm_components mmd) (sync_module_rpm comp) [] s = (Next gitdirs, s1) ->
     r.1 = Return true).
Proof.
  intros Hm. destruct (module_components mmd) as [|mc l] eqn:E; [done|].
  assert (Hf : safe (W:=W) always no_push any
                 (fold_each (rpm_components mmd) (sync_module_rpm comp) [])).
  { apply safe_fold_each. intros. by apply sync_module_rpm_no_push. }
  destruct (Hf s I) as [[_ (t & Ht & Hq)] _].
  cbv zeta.
  assert (HX : sync_components comp mmd s =
    match fold_each (rpm_components mmd) (sync_module_rpm comp) [] s with
    | (Next g, s') =>
        bind (for_each (module_components mmd) (sync_module_module comp))
          (fun _ => for_each g (push_module_rpm comp)) s'
    | (Return r, s') => (Return r, s')
    | (Raise, s') => (Raise, s')
    end) by reflexivity.
  rewrite HX, E. clear HX.
  destruct (fold_each (rpm_components mmd) (sync_module_rpm comp) [] s)
    as [[gitdirs|b|] s1] eqn:Ef; cbn [fst snd] in *.
  - rewrite module_loop_returns. cbn [fst snd trace]. split.
    + eexists. rewrite Ht, <- app_assoc. split; [done|].
      by rewrite forallb_app, Hq.
    + intros ? ? _. reflexivity.
  - split; [by exists t|]. by intros ? ? [=].
  - split; [by exists t|]. by intros ? ? [=].
Qed.

End NoPush.

Lemma module_component_never_pushed_witness :
  let r := sync_components "app:1" ex_mmd ex_state in
  (exists t, trace r.2 = trace ex_state ++ t /\ forallb no_push t = true) /\
  (forall gitdirs s1,
     fold_each (rpm_components ex_mmd) (sync_module_rpm "app:1") [] ex_state
       = (Next gitdirs, s1) ->
     r.1 = Return true).
Proof.
  apply (module_component_never_pushed (W:=unit) (host:=silent)).
  - intros p w. reflexivity.
  - discriminate.
Defined.
(** ** The lookaside caches *)

Section CacheNames.
Context {W : Type} {host : World W}.


End CacheNames.

(** ** Messages *)

Section Messages.
Context {W : Type} {host : World W}.

(** X16: a message that is passed over (another topic; a tag that is
    not a trigger; an RPM event for an unlisted component in the strict
    mode) has no effect at all: [process_message] returns in the state
    it was called in, without a single call to the outside. *)
Theorem process_message_passes_over (msg : message) (m : main_cfg) (cs : comps_cfg)
    (s : state W) :
  cfg_main (c (glob s)) = Some m ->
  cfg_comps (c (glob s)) = Some cs ->
  passed_over m cs msg ->
  process_message (R:=unit) msg s = (Next tt, s).
Proof.
  intros Hm Hcs Hp.
  unfold process_message, call, bind, globals_. cbn. rewrite Hm.
  destruct Hp as [Ht|(name & version & release & tag & tr & tm & Hn & Hv & Hr & Hg
                       & Htr & Htm & Hcase)].
  - by rewrite Ht.
  - destruct (ends_with "buildsys.tag" (topic msg)); [|done].
    unfold try, bind, eval, item. rewrite Hn, Hv, Hr, Hg. cbn.
    unfold event_component, main_, bind, globals_, eval, item. cbn.
    rewrite Hm. cbn. rewrite Htr. cbn.
    destruct Hcase as [[H1 H2]|(-> & Hc & Hst)].
    + rewrite (proj2 (String.eqb_neq _ _) H1). cbn. rewrite Hm. cbn. rewrite Htm. cbn.
      by rewrite (proj2 (String.eqb_neq _ _) H2).
    + rewrite String.eqb_refl. cbn. unfold comps_, bind, globals_. cbn.
      rewrite Hcs. cbn. rewrite Hm. cbn. rewrite Hc, Hst. cbn.
      done.
Qed.
End Messages.

Lemma process_message_passes_over_witness :
  process_message (R:=unit) ex_message ex_strict_state = (Next tt, ex_strict_state).
Proof.
  apply (process_message_passes_over ex_message ex_strict (CompsCfg ∅ ∅)
           ex_strict_state).
  - reflexivity.
  - reflexivity.
  - right. exists "foo", "1.0", "1.el8", "rtag", "rtag", "mtag".
    repeat split; try reflexivity.
    right. repeat split; reflexivity.
Defined.
(** ** Component sets *)

Section Records.
Context {W : Type} {host : World W}.

(** X18: [process_components] does nothing for a record that is skipped
    (garbage; an excluded component; an unlisted one in the strict
    mode): the round of its loop ends in the state it began in, without
    a call to the outside. *)
Theorem process_record_skips (latest : gmap string string) (rec : string)
    (m : main_cfg) (cs : comps_cfg) (s : state W) :
  cfg_main (c (glob s)) = Some m ->
  cfg_comps (c (glob s)) = Some cs ->
  skipped m cs rec ->
  process_record latest rec s = (Next tt, s).
Proof.
  intros Hm Hcs [Hg|(ns & comp & ex & cn & -> & Hns & Hne & Hall & Hex & Hcn & Hcase)].
  - unfold process_record. by rewrite Hg.
  - unfold process_record.
    replace (ns +:+ "/" +:+ comp) with (ns +:+ "/" +:+ comp +:+ "")
      by (by rewrite sapp_nil_r).
    rewrite cre_accepts by auto.
    assert (Hc : item (<["component" := comp]> (<["namespace" := ns]> ∅)) "component"
                 = Val comp) by (unfold item; by simplify_map_eq).
    assert (Hn' : item (<["component" := comp]> (<["namespace" := ns]> ∅)) "namespace"
                  = Val ns) by (unfold item; by simplify_map_eq).
    rewrite Hc, Hn'.
    unfold bind, eval, main_, comps_, globals_. cbn.
    rewrite Hm. cbn. rewrite Hex. cbn.
    destruct Hcase as [Hin|[Hst Hn]].
    + by rewrite bool_decide_eq_true_2.
    + destruct (bool_decide (comp ∈ ex)); [done|]. cbn.
      rewrite Hm. cbn. rewrite Hst. cbn. rewrite Hcs. cbn. rewrite Hcn. cbn.
      rewrite Hn.
      rewrite bool_decide_eq_false_2 by (by intros [? ?]). done.
Qed.

End Records.

Lemma process_record_skips_witness :
  process_record ∅ "rpms/foo" ex_state = (Next tt, ex_state).
Proof.
  apply (process_record_skips ∅ "rpms/foo" ex_main (CompsCfg ∅ ∅) ex_state).
  - reflexivity.
  - reflexivity.
  - right. exists "rpms", "foo", {[ "foo" ]}, ∅.
    repeat split; try reflexivity; try done.
    + by left.
    + left. by apply elem_of_singleton.
Defined.
